(** * SchemaLens: a shallow embedding of the ERD, schema-diff and
    code-impact services, with their specification properties.

    Python strings are modelled as [string] (ASCII); [str.lower] as ASCII
    lower-casing; dicts keyed by (schema, table) as stdpp's [gmap]; Python
    sets of table names as [gset string]; pandas frames as lists of row
    records whose dynamic column names are already resolved to the
    canonical ones. *)

From Stdlib Require Import String Ascii List Bool Arith Lia Permutation Sorting.
From stdpp Require Import base list gmap sets strings.
Import ListNotations.
Open Scope string_scope.

(* ------------------------------------------------------------------ *)
(** ** String helpers (Python [str] operations used by the code) *)

Definition ascii_lower (c : ascii) : ascii :=
  let n := nat_of_ascii c in
  if (65 <=? n)%nat && (n <=? 90)%nat then ascii_of_nat (n + 32) else c.

Definition ascii_upper (c : ascii) : ascii :=
  let n := nat_of_ascii c in
  if (97 <=? n)%nat && (n <=? 122)%nat then ascii_of_nat (n - 32) else c.

(** [s.upper()], as far as a comparison with an ASCII literal can tell:
    no other character upper-cases to an ASCII letter [N] or [O]. *)
Fixpoint upper (s : string) : string :=
  match s with
  | EmptyString => EmptyString
  | String c s' => String (ascii_upper c) (upper s')
  end.

(** [s.lower()] *)
Fixpoint lower (s : string) : string :=
  match s with
  | EmptyString => EmptyString
  | String c s' => String (ascii_lower c) (lower s')
  end.

Fixpoint starts_with (p s : string) : bool :=
  match p, s with
  | EmptyString, _ => true
  | String a p', String b s' => Ascii.eqb a b && starts_with p' s'
  | String _ _, EmptyString => false
  end.

(** Python's [p in s] on strings: [p] occurs as a substring of [s]
    (the empty string occurs in every string). *)
Fixpoint contains (p s : string) : bool :=
  starts_with p s ||
  match s with
  | EmptyString => false
  | String _ s' => contains p s'
  end.

Definition str_in (x : string) (l : list string) : bool :=
  existsb (String.eqb x) l.

(* ------------------------------------------------------------------ *)
(** ** Python values read from [information_schema] cells *)

(** A cell value: [None], a float NaN, a pandas [NaT], or any other
    object, represented by its [str()]. *)
Inductive pyval :=
| PyNone
| PyNaN
| PyNaT
| PyObj (repr : string).

(** [str(v)] *)
Definition py_str (v : pyval) : string :=
  match v with
  | PyNone => "None"
  | PyNaN => "nan"
  | PyNaT => "NaT"
  | PyObj r => r
  end.

(** [pd.isna(v)] on a scalar *)
Definition pd_isna (v : pyval) : bool :=
  match v with
  | PyNone | PyNaN | PyNaT => true
  | PyObj _ => false
  end.

Definition is_py_none (v : pyval) : bool :=
  match v with PyNone => true | _ => false end.

(* ------------------------------------------------------------------ *)
(** ** Unused-Table Filter (src/ui/erd_ui.py) *)

(** The [table_info] entry of one table, as [load_schema_metadata]
    stores it. *)
Record table_meta := {
  last_update : pyval;
  created : pyval;
  rows : Z;
  data_size : Z;
  index_size : Z
}.

(** [table_info]: dict keyed by (schema, table). *)
Abbreviation table_info_map := (gmap (string * string) table_meta).

(** A row of the [tables] frame: (schema, table_name). *)
Abbreviation table_row := (string * string)%type.

Definition enum_patterns : list string :=
  ["status"; "type"; "category"; "enum"; "lookup"; "reference";
   "config"; "setting"; "option"; "code"; "list"; "reason";
   "complete_by"; "job_truck_unit"; "dispath_ordrer"; "attribiute";
   "transcription_field"; "entity_note"].

(** [_is_enum_table] *)
Definition _is_enum_table (table_name : string) : bool :=
  let table_lower := lower table_name in
  existsb (fun pattern => contains pattern table_lower) enum_patterns.

Definition null_sentinels : list string := ["nat"; "none"; "null"; "unknown"].

(** [_is_unused_table] *)
Definition _is_unused_table (lu : pyval) : bool :=
  is_py_none lu || pd_isna lu || str_in (lower (py_str lu)) null_sentinels.

(** [info.get('last_update')] with [info = table_info.get(key, {})] *)
Definition lookup_last_update (ti : table_info_map) (k : table_row) : pyval :=
  match ti !! k with
  | Some info => last_update info
  | None => PyNone
  end.

(** The displayed exclusion record; the size, row and creation columns
    are display formatting and are not modelled. *)
Record exclusion := {
  ex_table : string;
  ex_reason : string
}.

(** [_create_exclusion_record] (its [Table] and [Reason] fields) *)
Definition _create_exclusion_record (schema_name table_name : string)
    (lu : pyval) : exclusion :=
  {| ex_table := schema_name ++ "." ++ table_name;
     ex_reason :=
       if is_py_none lu then "No UPDATE_TIME metadata (non-enum table)"
       else if pd_isna lu then "UPDATE_TIME is NaT (non-enum table)"
       else "UPDATE_TIME is '" ++ py_str lu ++ "' (non-enum table)" |}.

(** [_filter_unused_tables], with [table_info] already collected by
    [_collect_table_info]; returns (filtered_tables, excluded_details). *)
Fixpoint _filter_unused_tables (tables : list table_row) (ti : table_info_map)
    : list table_row * list exclusion :=
  match tables with
  | [] => ([], [])
  | (schema_name, table_name) as row :: rest =>
      let '(kept, excl) := _filter_unused_tables rest ti in
      let lu := lookup_last_update ti row in
      if _is_enum_table table_name then (row :: kept, excl)
      else if _is_unused_table lu then
        (kept, _create_exclusion_record schema_name table_name lu :: excl)
      else (row :: kept, excl)
  end.

(* ------------------------------------------------------------------ *)
(** ** Source corpus and unused-object detection
    (src/services/code_analysis_service.py, [find_unused_objects];
    the same computation as [CodeImpactAnalyzer._identify_unused_objects]
    over [_collect_all_code_content] in git_analysis_service.py) *)

(** A file met by [os.walk], in walk order (the walk and the skipped
    directories are the file system's business): its name and its content,
    or [None] when opening or reading it raises. *)
Record src_file := {
  file_name : string;
  file_content : option string
}.

(** [s.endswith(suffix)] *)
Definition ends_with (suffix s : string) : bool :=
  let n := String.length s in
  let m := String.length suffix in
  (m <=? n)%nat && String.eqb (substring (n - m) m s) suffix.

(** [any(file.endswith(ext) for ext in file_extensions)] *)
Definition should_scan (exts : list string) (name : string) : bool :=
  existsb (fun ext => ends_with ext name) exts.

Fixpoint has_dot (s : string) : bool :=
  match s with
  | EmptyString => false
  | String c s' => Ascii.eqb c "."%char || has_dot s'
  end.

(** [s.split('.')[-1]]: the text after the last dot, or [s] itself. *)
Fixpoint split_last_dot (s : string) : string :=
  match s with
  | EmptyString => EmptyString
  | String c s' =>
      if has_dot s' then split_last_dot s'
      else if Ascii.eqb c "."%char then s'
      else s
  end.

(** The loop building [all_code_content]: for every scanned file that
    could be read, [all_code_content += f.read().lower() + "\n"]. *)
Fixpoint collect_code_content (exts : list string) (files : list src_file)
    : string :=
  match files with
  | [] => ""
  | f :: rest =>
      let piece :=
        if should_scan exts (file_name f) then
          match file_content f with
          | Some c => lower c ++ String "010"%char EmptyString
          | None => ""
          end
        else "" in
      piece ++ collect_code_content exts rest
  end.

Record unused_result := {
  unused_tables : list string;
  unused_columns : list string;
  total_tables : nat;
  total_columns : nat
}.

(** The loop [for obj in objs: if obj.split('.')[-1].lower() not in
    all_code_content: unused.append(obj)] *)
Definition unreferenced (all_code_content : string) (objs : list string)
    : list string :=
  List.filter (fun o => negb (contains (lower (split_last_dot o)) all_code_content))
    objs.

(** [find_unused_objects] *)
Definition find_unused_objects (files : list src_file)
    (all_tables all_columns : list string) (exts : list string)
    : unused_result :=
  let all_code_content := collect_code_content exts files in
  {| unused_tables := unreferenced all_code_content all_tables;
     unused_columns := firstn 100 (unreferenced all_code_content all_columns);
     total_tables := length all_tables;
     total_columns := length all_columns |}.

(** The contents of the selected files: those whose name passes the
    extension allow-list and that could be read, in walk order. *)
Definition selected_contents (exts : list string) (files : list src_file)
    : list string :=
  flat_map (fun f =>
    if should_scan exts (file_name f) then
      match file_content f with Some c => [c] | None => [] end
    else []) files.

(** The blob as the specification words it: the lowercased
    concatenation of the selected file contents. *)
Definition spec_blob (exts : list string) (files : list src_file) : string :=
  lower (String.concat "" (selected_contents exts files)).

(** The concatenation of the selected contents, each lowercased and
    followed by a newline. *)
Definition terminated_blob (exts : list string) (files : list src_file) : string :=
  String.concat "" (map (fun c => lower c ++ String "010"%char EmptyString)
                      (selected_contents exts files)).

Definition two_files : list src_file :=
  [ {| file_name := "a.py"; file_content := Some "ab" |};
    {| file_name := "b.py"; file_content := Some "c" |} ].

Definition no_sql_files : list src_file :=
  [ {| file_name := "main.py"; file_content := Some "select * from orders" |} ].

(* ------------------------------------------------------------------ *)
(** ** Reference scanner (code_analysis_service.analyze_table_impact and
    CodeImpactAnalyzer._find_pattern_matches_in_content)

    The table patterns use only literal characters, [\b], [\s] with [*]
    or [+], and one character class. They are compiled here into a list
    of items, and [re.finditer(pattern, content, re.IGNORECASE)] is
    modelled by a backtracking matcher that tries greedy repetitions from
    the longest run down, which is the order of Python's [re]. The table
    name is spliced into the pattern text; a name made of letters, digits
    and underscores (no regex metacharacter) is read by [re] as literal
    characters, which is how [lit_items] compiles it. Any other pattern
    text is left to the [re] module itself ([re_module] below). *)

Definition dq : string := String "034"%char EmptyString.
Definition sq : string := String "039"%char EmptyString.
Definition nl : ascii := "010"%char.

(** [str.isspace] / [\s] on ASCII *)
Definition is_space (c : ascii) : bool :=
  let n := nat_of_ascii c in
  (n =? 32)%nat || ((9 <=? n)%nat && (n <=? 13)%nat)
  || ((28 <=? n)%nat && (n <=? 31)%nat).

(** word characters of [\b] on ASCII: [A-Za-z0-9_] *)
Definition is_word (c : ascii) : bool :=
  let n := nat_of_ascii c in
  ((48 <=? n)%nat && (n <=? 57)%nat) || ((65 <=? n)%nat && (n <=? 90)%nat)
  || ((97 <=? n)%nat && (n <=? 122)%nat) || (n =? 95)%nat.

Inductive atom :=
| ALit (c : ascii)          (* a literal character *)
| AWs                       (* \s *)
| AClass (cs : list ascii) (ws : bool). (* [...], with \s inside when ws *)

Inductive item :=
| One (a : atom)
| Star (a : atom)           (* a* *)
| Plus (a : atom)           (* a+ *)
| WordB.                    (* \b *)

Abbreviation regex := (list item).

(** One character against an atom, under [re.IGNORECASE]. *)
Definition atom_ok (a : atom) (c : ascii) : bool :=
  match a with
  | ALit p => Ascii.eqb (ascii_lower c) (ascii_lower p)
  | AWs => is_space c
  | AClass cs ws =>
      existsb (fun p => Ascii.eqb (ascii_lower p) (ascii_lower c)) cs
      || (ws && is_space c)
  end.

Definition word_at (s : list ascii) (i : nat) : bool :=
  match nth_error s i with Some c => is_word c | None => false end.

(** [\b] at position [i] *)
Definition at_boundary (s : list ascii) (i : nat) : bool :=
  let before := match i with 0 => false | S j => word_at s j end in
  xorb before (word_at s i).

(** Length of the run of characters matching [a] at the head of [s]. *)
Fixpoint run_len (a : atom) (s : list ascii) : nat :=
  match s with
  | [] => 0
  | c :: s' => if atom_ok a c then S (run_len a s') else 0
  end.

(** Try [f k], [f (k-1)], ..., [f 0]; the first success wins. *)
Fixpoint try_down (f : nat -> option nat) (k : nat) : option nat :=
  match f k with
  | Some e => Some e
  | None => match k with 0 => None | S k' => try_down f k' end
  end.

(** Anchored match of [p] at position [i] of [s]: the end position. *)
Fixpoint match_at (s : list ascii) (p : regex) (i : nat) : option nat :=
  match p with
  | [] => Some i
  | One a :: p' =>
      match nth_error s i with
      | Some c => if atom_ok a c then match_at s p' (S i) else None
      | None => None
      end
  | WordB :: p' => if at_boundary s i then match_at s p' i else None
  | Star a :: p' =>
      try_down (fun k => match_at s p' (i + k)) (run_len a (skipn i s))
  | Plus a :: p' =>
      try_down (fun k => if (k =? 0)%nat then None else match_at s p' (i + k))
        (run_len a (skipn i s))
  end.

(** [re.search] from position [pos]: the leftmost match (start, end). *)
Fixpoint search_from (fuel : nat) (s : list ascii) (p : regex) (pos : nat)
    : option (nat * nat) :=
  match fuel with
  | 0 => None
  | S fuel' =>
      if (pos <=? length s)%nat then
        match match_at s p pos with
        | Some e => Some (pos, e)
        | None => search_from fuel' s p (S pos)
        end
      else None
  end.

(** [re.finditer]: successive non-overlapping leftmost matches; after an
    empty match the scan moves one character on. *)
Fixpoint finditer_fuel (fuel : nat) (s : list ascii) (p : regex) (pos : nat)
    : list (nat * nat) :=
  match fuel with
  | 0 => []
  | S fuel' =>
      match search_from (S (length s)) s p pos with
      | None => []
      | Some (b, e) =>
          (b, e) :: finditer_fuel fuel' s p (if (e =? b)%nat then S e else e)
      end
  end.

Definition finditer (p : regex) (content : string) : list (nat * nat) :=
  let s := list_ascii_of_string content in
  finditer_fuel (S (length s)) s p 0.

Definition lit_items (w : string) : regex :=
  map (fun c => One (ALit c)) (list_ascii_of_string w).

(** The characters that [re] does not read as themselves, outside a
    character class ([.^$*+?{}[]\|()]) or inside the class of the last
    two patterns ([]], [\], and [-] for ranges). *)
Definition re_special : list ascii := list_ascii_of_string ".^$*+?{}[]\|()-".

(** A table name that every pattern reads as literal characters. *)
Definition re_literal_name (name : string) : bool :=
  forallb (fun c => negb (existsb (Ascii.eqb c) re_special)) (list_ascii_of_string name).

(** What the [re] module does with a pattern text that is not compiled
    here: [None] when [re.finditer] raises [re.error] on it (compiling does
    not depend on the content), otherwise the (start, end) spans it yields
    on a content under [re.IGNORECASE]. Statements quantify over it. *)
Class re_module := re_finditer_ext : string -> option (string -> list (nat * nat)).

(** A module that raises on every pattern text outside the literal
    fragment; used to run samples whose names are literal, where it is
    never consulted. *)
Definition re_fragment_only : re_module := fun _ => None.

(** A pattern: its source text (recorded in each match) and its compiled
    form, when the name is literal ([None]: the text goes to [re]). *)
Record pattern := { pat_text : string; pat_re : option regex }.

Definition compiled_for (name : string) (r : regex) : option regex :=
  if re_literal_name name then Some r else None.

(** [table_patterns] of [analyze_table_impact], for a given name. In the
    last two the f-string puts the name inside the character class
    [["\'<name>["\']], so they end with one character of that class and
    a closing parenthesis. *)
Definition table_patterns (table_name : string) : list pattern :=
  let nm := lit_items table_name in
  let cls := AClass (list_ascii_of_string (dq ++ sq ++ table_name ++ "[" ++ dq ++ sq)) false in
  [ {| pat_text := "\b" ++ table_name ++ "\b";
       pat_re := compiled_for table_name ([WordB] ++ nm ++ [WordB]) |};
    {| pat_text := "FROM\s+" ++ table_name ++ "\b";
       pat_re := compiled_for table_name (lit_items "FROM" ++ [Plus AWs] ++ nm ++ [WordB]) |};
    {| pat_text := "JOIN\s+" ++ table_name ++ "\b";
       pat_re := compiled_for table_name (lit_items "JOIN" ++ [Plus AWs] ++ nm ++ [WordB]) |};
    {| pat_text := "UPDATE\s+" ++ table_name ++ "\b";
       pat_re := compiled_for table_name (lit_items "UPDATE" ++ [Plus AWs] ++ nm ++ [WordB]) |};
    {| pat_text := "INSERT\s+INTO\s+" ++ table_name ++ "\b";
       pat_re := compiled_for table_name (lit_items "INSERT" ++ [Plus AWs] ++ lit_items "INTO"
                 ++ [Plus AWs] ++ nm ++ [WordB]) |};
    {| pat_text := "DELETE\s+FROM\s+" ++ table_name ++ "\b";
       pat_re := compiled_for table_name (lit_items "DELETE" ++ [Plus AWs] ++ lit_items "FROM"
                 ++ [Plus AWs] ++ nm ++ [WordB]) |};
    {| pat_text := "@Table\s*\(\s*name\s*=\s*[" ++ dq ++ "\" ++ sq ++ table_name
                   ++ "[" ++ dq ++ "\" ++ sq ++ "]\)";
       pat_re := compiled_for table_name (lit_items "@Table" ++ [Star AWs] ++ lit_items "(" ++ [Star AWs]
                 ++ lit_items "name" ++ [Star AWs] ++ lit_items "=" ++ [Star AWs]
                 ++ [One cls] ++ lit_items ")") |};
    {| pat_text := "table_name\s*=\s*[" ++ dq ++ "\" ++ sq ++ table_name
                   ++ "[" ++ dq ++ "\" ++ sq ++ "]\)";
       pat_re := compiled_for table_name (lit_items "table_name" ++ [Star AWs] ++ lit_items "="
                 ++ [Star AWs] ++ [One cls] ++ lit_items ")") |} ].

(** [CodeImpactAnalyzer.table_patterns] formatted with the name
    (git_analysis_service.py); here the class of the last two patterns is
    [["\'<name>\s*["\']]. *)
Definition analyzer_table_patterns (table_name : string) : list pattern :=
  let nm := lit_items table_name in
  let cls := AClass (list_ascii_of_string (dq ++ sq ++ table_name ++ "*[" ++ dq ++ sq)) true in
  firstn 6 (table_patterns table_name) ++
  [ {| pat_text := "@Table\s*\(\s*name\s*=\s*[" ++ dq ++ "\" ++ sq ++ table_name
                   ++ "\s*[" ++ dq ++ "\" ++ sq ++ "]\)";
       pat_re := compiled_for table_name (lit_items "@Table" ++ [Star AWs] ++ lit_items "(" ++ [Star AWs]
                 ++ lit_items "name" ++ [Star AWs] ++ lit_items "=" ++ [Star AWs]
                 ++ [One cls] ++ lit_items ")") |};
    {| pat_text := "table_name\s*=\s*[" ++ dq ++ "\" ++ sq ++ table_name
                   ++ "\s*[" ++ dq ++ "\" ++ sq ++ "]\)";
       pat_re := compiled_for table_name (lit_items "table_name" ++ [Star AWs] ++ lit_items "="
                 ++ [Star AWs] ++ [One cls] ++ lit_items ")") |} ].

(** [content[:n].count('\n')] *)
Fixpoint count_nl (n : nat) (s : string) : nat :=
  match n, s with
  | 0, _ | _, EmptyString => 0
  | S n', String c s' => (if Ascii.eqb c nl then 1 else 0) + count_nl n' s'
  end.

(** [content.split('\n')] *)
Fixpoint split_nl (s : string) : list string :=
  match s with
  | EmptyString => [EmptyString]
  | String c s' =>
      if Ascii.eqb c nl then EmptyString :: split_nl s'
      else match split_nl s' with
           | l :: ls => String c l :: ls
           | [] => [String c EmptyString]
           end
  end.

Fixpoint lstrip (s : string) : string :=
  match s with
  | String c s' => if is_space c then lstrip s' else s
  | EmptyString => EmptyString
  end.

Definition rev_string (s : string) : string :=
  string_of_list_ascii (rev (list_ascii_of_string s)).

(** [str.strip()] *)
Definition strip (s : string) : string :=
  rev_string (lstrip (rev_string (lstrip s))).

Record match_rec := { m_line : nat; m_content : string; m_pattern : string }.

Record file_result := {
  fr_path : string;
  fr_matches : list match_rec;
  fr_count : nat
}.

Record impact_result := { files : list file_result; total_references : nat }.

(** [re.finditer(pattern, content, re.IGNORECASE)]: the spans, or [None]
    when it raises [re.error]. *)
Definition pattern_spans `{re_module} (pt : pattern) (content : string)
    : option (list (nat * nat)) :=
  match pat_re pt with
  | Some r => Some (finditer r content)
  | None => option_map (fun f => f content) (re_finditer_ext (pat_text pt))
  end.

(** The record of one match. *)
Definition match_of (pt : pattern) (content : string) (span : nat * nat) : match_rec :=
  let line_num := count_nl (fst span) content + 1 in
  {| m_line := line_num;
     m_content := strip (nth (line_num - 1) (split_nl content) "");
     m_pattern := pat_text pt |}.

(** The inner loops over the patterns and [re.finditer]
    ([_find_pattern_matches_in_content]): [None] when a pattern raises,
    which abandons the matches gathered so far. *)
Fixpoint pattern_matches `{re_module} (patterns : list pattern) (content : string)
    : option (list match_rec) :=
  match patterns with
  | [] => Some []
  | pt :: rest =>
      match pattern_spans pt content with
      | None => None
      | Some spans =>
          option_map (fun ms => (map (match_of pt content) spans ++ ms)%list)
            (pattern_matches rest content)
      end
  end.

(** Whether every pattern compiles: a literal name, or [re] accepting the
    text. *)
Definition patterns_compile `{re_module} (patterns : list pattern) : bool :=
  forallb (fun pt => match pat_re pt with
                     | Some _ => true
                     | None => if re_finditer_ext (pat_text pt) then true else false
                     end) patterns.

(** The walk loop shared by [analyze_table_impact] and
    [CodeImpactAnalyzer.analyze_table_impact_local]; unreadable files, and
    files whose scan raises, are skipped ([except Exception]). *)
Fixpoint scan_files `{re_module} (patterns : list pattern) (exts : list string)
    (fs : list src_file) (acc : impact_result) : impact_result :=
  match fs with
  | [] => acc
  | f :: rest =>
      let acc' :=
        if should_scan exts (file_name f) then
          match file_content f with
          | Some content =>
              match pattern_matches patterns content with
              | None | Some [] => acc
              | Some ms =>
                  {| files := files acc ++
                       [{| fr_path := file_name f; fr_matches := ms;
                           fr_count := length ms |}];
                     total_references := total_references acc + length ms |}
              end
          | None => acc
          end
        else acc in
      scan_files patterns exts rest acc'
  end.

Definition empty_impact : impact_result := {| files := []; total_references := 0 |}.

(** [analyze_table_impact] *)
Definition analyze_table_impact `{re_module} (fs : list src_file) (table_name : string)
    (exts : list string) : impact_result :=
  scan_files (table_patterns table_name) exts fs empty_impact.

(** [CodeImpactAnalyzer.analyze_table_impact_local] *)
Definition analyze_table_impact_local `{re_module} (fs : list src_file) (table_name : string)
    (exts : list string) : impact_result :=
  scan_files (analyzer_table_patterns table_name) exts fs empty_impact.

(** Number of positions of [content] at which [name] occurs
    (case-insensitively): the textual occurrences of the name. *)
Fixpoint occurrences (name content : string) : nat :=
  (if starts_with (lower name) (lower content) then 1 else 0) +
  match content with
  | EmptyString => 0
  | String _ s' => occurrences name s'
  end.

(* ------------------------------------------------------------------ *)
(** ** Graph Builder (src/services/erd_service.py, [build_graph]) *)

(** Rows of the metadata frames, with the columns that [build_graph]
    resolves by name. *)
(** The columns frame also carries [char_len], [num_precision] and
    [num_scale]: [COALESCE(..., '')] of a number and a string is a string
    in MySQL, so each cell is a string; [None] stands for [r.get]
    finding no such column. *)
Record col_row := {
  c_schema : string; c_table : string; c_column : string;
  c_dtype : string; c_nullable : string;
  c_char_len : option string; c_num_precision : option string;
  c_num_scale : option string
}.
Record pk_row := { p_schema : string; p_table : string; p_column : string }.
Record fk_row := {
  f_child_schema : string; f_child_table : string; f_child_column : string;
  f_parent_schema : string; f_parent_table : string; f_parent_column : string
}.
Record idx_row := {
  i_schema : string; i_table : string; i_index_name : string;
  i_index_columns : string; i_non_unique : string
}.
Record rc_row := { r_schema : string; r_table : string; r_count : Z }.

(** One line of a table panel: a column (with its key markers, its
    detail and whether it is shown NOT NULL), or the "... n more columns"
    marker. *)
Inductive col_line :=
| ColLine (is_pk is_fk : bool) (name detail : string) (not_null : bool)
| MoreCols (n : nat).

Record idx_line := { il_unique : bool; il_name : string; il_columns : string }.

(** The HTML-like label, by its parts. *)
Record node_label := {
  lb_title : string;
  lb_row_count : option Z;
  lb_columns : list col_line;
  lb_indexes : list idx_line
}.

Record gnode := { n_id : string; n_label : node_label }.
Record gedge := { e_tail : string; e_head : string; e_label : string }.

(** A [graphviz.Digraph] body: top-level nodes, [cluster_<schema>]
    subgraphs with their nodes, and edges, each in emission order. *)
Record digraph := {
  top_nodes : list gnode;
  clusters : list (string * list gnode);
  edges : list gedge
}.

Definition all_nodes (g : digraph) : list gnode :=
  top_nodes g ++ flat_map snd (clusters g).

(** The node name [f"{schema_name}.{table_name}"]. *)
Definition node_id (t : table_row) : string := fst t ++ "." ++ snd t.

(** [(schema, table, col) in pk_set] *)
Definition in_pk_set (pks : list pk_row) (s t c : string) : bool :=
  existsb (fun r => String.eqb (p_schema r) s && String.eqb (p_table r) t
                    && String.eqb (p_column r) c) pks.

(** [(schema, table, col) in fk_cols_map] *)
Definition in_fk_map (fks : list fk_row) (s t c : string) : bool :=
  existsb (fun r => String.eqb (f_child_schema r) s && String.eqb (f_child_table r) t
                    && String.eqb (f_child_column r) c) fks.

(** [r.get(key) not in (None, "", 0, "0")] on a string cell. *)
Definition detail_present (v : option string) : bool :=
  match v with
  | None => false
  | Some x => negb (String.eqb x "" || String.eqb x "0")
  end.

Definition cell_str (v : option string) : string :=
  match v with Some x => x | None => "None" end.

(** [_format_column_detail] *)
Definition _format_column_detail (r : col_row) : string :=
  let dtype := c_dtype r in
  if detail_present (c_char_len r) then dtype ++ "(" ++ cell_str (c_char_len r) ++ ")"
  else if detail_present (c_num_precision r) then
    if detail_present (c_num_scale r)
    then dtype ++ "(" ++ cell_str (c_num_precision r) ++ ","
         ++ cell_str (c_num_scale r) ++ ")"
    else dtype ++ "(" ++ cell_str (c_num_precision r) ++ ")"
  else dtype.

(** The line of one displayed column in [_build_column_rows]. *)
Definition column_line (pks : list pk_row) (fks : list fk_row) (schema table : string)
    (r : col_row) : col_line :=
  ColLine (in_pk_set pks schema table (c_column r))
    (in_fk_map fks schema table (c_column r))
    (c_column r) (_format_column_detail r)
    (String.eqb (upper (c_nullable r)) "NO").

(** [_build_column_rows] *)
Fixpoint column_rows (cols : list col_row) (schema table : string)
    (pks : list pk_row) (fks : list fk_row) (total displayed max_cols : nat)
    : list col_line :=
  match cols with
  | [] => []
  | r :: rest =>
      if (max_cols <=? displayed)%nat then [MoreCols (total - max_cols)]
      else column_line pks fks schema table r
           :: column_rows rest schema table pks fks total (S displayed) max_cols
  end.

(** [_build_index_rows] *)
Definition index_rows (idx : list idx_row) : list idx_line :=
  map (fun r => {| il_unique := String.eqb (i_non_unique r) "0";
                   il_name := i_index_name r;
                   il_columns := i_index_columns r |}) idx.

(** [build_table_label] *)
Definition build_table_label (schema table : string) (cols : list col_row)
    (pks : list pk_row) (fks : list fk_row) (idx : list idx_row)
    (row_count : option Z) (show_schema : bool) (max_cols : nat) : node_label :=
  {| lb_title := if show_schema then schema ++ "." ++ table else table;
     lb_row_count := row_count;
     lb_columns := column_rows cols schema table pks fks (length cols) 0 max_cols;
     lb_indexes := index_rows idx |}.

(** [rc_map.get((schema, table))]: the last row of the key wins. *)
Definition rc_lookup (rcs : list rc_row) (s t : string) : option Z :=
  fold_left (fun acc r =>
    if String.eqb (r_schema r) s && String.eqb (r_table r) t
    then Some (r_count r) else acc) rcs None.

(** The node of one [schema_tables] row. *)
Definition table_node (columns : list col_row) (pks : list pk_row)
    (fks : list fk_row) (indexes : list idx_row) (rowcounts : list rc_row)
    (show_schema_prefix : bool) (max_cols : nat) (t : table_row) : gnode :=
  let '(schema_name, table_name) := t in
  let cols_df := List.filter (fun c => String.eqb (c_schema c) schema_name
                                  && String.eqb (c_table c) table_name) columns in
  let idx_df := List.filter (fun r => String.eqb (i_schema r) schema_name
                                 && String.eqb (i_table r) table_name) indexes in
  {| n_id := node_id t;
     n_label := build_table_label schema_name table_name cols_df pks fks idx_df
                  (rc_lookup rowcounts schema_name table_name)
                  show_schema_prefix max_cols |}.

(** Sorted insertion without duplicates: the group keys of
    [DataFrame.groupby("schema")] are the distinct schemas, ascending. *)
Fixpoint insert_key (k : string) (ks : list string) : list string :=
  match ks with
  | [] => [k]
  | k' :: r =>
      if String.eqb k k' then ks
      else if String.ltb k k' then k :: ks
      else k' :: insert_key k r
  end.

Definition group_keys (ts : list table_row) : list string :=
  fold_right insert_key [] (map fst ts).

(** The rows of one group, in frame order. *)
Definition group_rows (ts : list table_row) (k : string) : list table_row :=
  List.filter (fun t => String.eqb (fst t) k) ts.

(** The arrow literal of the edge label in the source: the three
    characters U+00E2, U+2020, U+2019, as UTF-8 bytes. *)
Definition fk_arrow : string :=
  string_of_list_ascii
    ["195"; "162"; "226"; "128"; "160"; "226"; "128"; "153"]%char.

(** The edge of one foreign-key row. *)
Definition fk_edge (r : fk_row) : gedge :=
  {| e_tail := f_child_schema r ++ "." ++ f_child_table r;
     e_head := f_parent_schema r ++ "." ++ f_parent_table r;
     e_label := f_child_column r ++ " " ++ fk_arrow ++ " " ++ f_parent_column r |}.

(** [build_graph] *)
Definition build_graph (schema_tables : list table_row) (columns : list col_row)
    (pks : list pk_row) (fks : list fk_row) (indexes : list idx_row)
    (rowcounts : list rc_row) (cluster_by_schema show_schema_prefix : bool)
    (max_cols : nat) : digraph :=
  let mk := table_node columns pks fks indexes rowcounts show_schema_prefix max_cols in
  if cluster_by_schema then
    {| top_nodes := [];
       clusters := map (fun k => ("cluster_" ++ k, map mk (group_rows schema_tables k)))
                     (group_keys schema_tables);
       edges := map fk_edge fks |}
  else
    {| top_nodes := map mk schema_tables;
       clusters := [];
       edges := map fk_edge fks |}.

(* ------------------------------------------------------------------ *)
(** ** Metadata loading (src/services/database_service.py,
    [load_schema_metadata]) *)

(** The [SchemaSnapshot] dict: [tables], [columns], [table_info]. *)
Record snapshot := {
  sn_tables : list string;
  sn_columns : gmap string (list string);
  sn_table_info : gmap string table_meta
}.

Definition empty_snapshot : snapshot :=
  {| sn_tables := []; sn_columns := ∅; sn_table_info := ∅ |}.

(** A row of the [information_schema.tables] query. *)
Record tables_q_row := {
  tq_name : string; tq_update_time : pyval; tq_create_time : pyval;
  tq_rows : Z; tq_data_length : Z; tq_index_length : Z
}.

(** What the database does with each step: [connect_ok] covers
    [create_engine] and [engine.connect()]; a query is [None] when it
    raises, [Some rows] otherwise. *)
Record db_env := {
  connect_ok : bool;
  q_tables : option (list tables_q_row);
  q_columns : option (list (string * string));
  q_show_tables : option (list string)
}.

(** Python control flow under exceptions: a value or a raised exception. *)
Inductive outcome (A : Type) := Ok (a : A) | Raised.
Arguments Ok {A} a.
Arguments Raised {A}.

Definition obind {A B} (m : outcome A) (k : A -> outcome B) : outcome B :=
  match m with Ok a => k a | Raised => Raised end.

Notation "x <-- m ;; k" := (obind m (fun x => k))
  (at level 100, m at next level, right associativity).

Definition raise_unless (b : bool) : outcome unit := if b then Ok tt else Raised.

Definition run_query {A} (q : option A) : outcome A :=
  match q with Some a => Ok a | None => Raised end.

(** [try: ... except Exception: pass] around [SHOW TABLES], followed by
    [return {'tables': [], ...}]. *)
Definition show_tables_fallback (q : option (list string)) : snapshot :=
  match q with
  | Some ((_ :: _) as ts) => {| sn_tables := ts; sn_columns := ∅; sn_table_info := ∅ |}
  | _ => empty_snapshot
  end.

Definition meta_of_row (r : tables_q_row) : table_meta :=
  {| last_update := tq_update_time r; created := tq_create_time r;
     rows := tq_rows r; data_size := tq_data_length r;
     index_size := tq_index_length r |}.

(** The body of the outer [try]. *)
Definition load_body (env : db_env) : outcome snapshot :=
  _ <-- raise_unless (connect_ok env) ;;
  tables_df <-- run_query (q_tables env) ;;
  match tables_df with
  | [] => Ok (show_tables_fallback (q_show_tables env))
  | _ :: _ =>
      columns_df <-- run_query (q_columns env) ;;
      let tables := map tq_name tables_df in
      let cols : gmap string (list string) :=
        match columns_df with
        | [] => ∅
        | _ :: _ =>
            fold_left (fun m t =>
              <[t := map snd (List.filter (fun r => String.eqb (fst r) t) columns_df)]> m)
              tables ∅
        end in
      let info : gmap string table_meta :=
        fold_left (fun m r => <[tq_name r := meta_of_row r]> m) tables_df ∅ in
      Ok {| sn_tables := tables; sn_columns := cols; sn_table_info := info |}
  end.

(** [load_schema_metadata]: [except Exception: return {... empty ...}] *)
Definition load_schema_metadata (env : db_env) : snapshot :=
  match load_body env with
  | Ok s => s
  | Raised => empty_snapshot
  end.

(** Some step that the run executes raises: the connection, the tables
    query, then the columns query (non-empty tables) or the [SHOW TABLES]
    query (empty tables). *)
Definition load_raises (env : db_env) : bool :=
  negb (connect_ok env) ||
  match q_tables env with
  | None => true
  | Some [] => match q_show_tables env with None => true | Some _ => false end
  | Some (_ :: _) => match q_columns env with None => true | Some _ => false end
  end.

(** A database whose columns query raises after the tables query
    returned one table. *)
Definition env_columns_query_fails : db_env :=
  {| connect_ok := true;
     q_tables := Some [ {| tq_name := "orders"; tq_update_time := PyNone;
                           tq_create_time := PyNone; tq_rows := 0%Z;
                           tq_data_length := 0%Z; tq_index_length := 0%Z |} ];
     q_columns := None;
     q_show_tables := None |}.

(* ------------------------------------------------------------------ *)
(** ** Schema Diff Engine (src/tabs/environment_compare.py) *)

Record table_comparison := {
  only_in_1 : gset string;
  only_in_2 : gset string;
  common : gset string
}.

(** The sets computed by [_display_table_comparison] (and [common] by
    [_display_column_comparison]). *)
Definition compare_tables (data1 data2 : snapshot) : table_comparison :=
  let tables1 : gset string := list_to_set (sn_tables data1) in
  let tables2 : gset string := list_to_set (sn_tables data2) in
  {| only_in_1 := tables1 ∖ tables2;
     only_in_2 := tables2 ∖ tables1;
     common := tables1 ∩ tables2 |}.

(** Corpora of one SQL file. *)
Definition orders_query_files : list src_file :=
  [ {| file_name := "query.sql";
       file_content := Some "SELECT id FROM orders WHERE id = 5" |} ].

Definition from_orders_files : list src_file :=
  [ {| file_name := "query.sql"; file_content := Some "FROM orders" |} ].

(** Two tables of one schema, the orders table referencing customers. *)
Definition shop_tables : list table_row := [("shop", "customers"); ("shop", "orders")].

Definition shop_fks : list fk_row :=
  [ {| f_child_schema := "shop"; f_child_table := "orders";
       f_child_column := "customer_id"; f_parent_schema := "shop";
       f_parent_table := "customers"; f_parent_column := "id" |} ].

(** Foreign keys gathered schema by schema in the selection order
    [b], then [a], as [_fetch_all_schema_metadata] concatenates them. *)
Definition two_schema_tables : list table_row := [("a", "t1"); ("b", "t2")].

Definition fks_b_then_a : list fk_row :=
  [ {| f_child_schema := "b"; f_child_table := "t2"; f_child_column := "t1_id";
       f_parent_schema := "a"; f_parent_table := "t1"; f_parent_column := "id" |};
    {| f_child_schema := "a"; f_child_table := "t1"; f_child_column := "t2_id";
       f_parent_schema := "b"; f_parent_table := "t2"; f_parent_column := "id" |} ].

(** Rows ordered by ascending schema. *)
Definition schema_le (x y : table_row) : Prop := String.leb (fst x) (fst y) = true.

(** The claim's reading of "last_update is present": not [None], NaN
    or [NaT]. *)
Definition present_value (v : pyval) : bool :=
  match v with PyObj _ => true | _ => false end.

(** The keep rule as the specification words it. *)
Definition spec_keeps (ti : table_info_map) (row : table_row) : bool :=
  let lu := lookup_last_update ti row in
  _is_enum_table (snd row)
  || (present_value lu && negb (str_in (lower (py_str lu)) null_sentinels)).

Definition exclusion_of (ti : table_info_map) (row : table_row) : exclusion :=
  _create_exclusion_record (fst row) (snd row) (lookup_last_update ti row).

(** A bare name that is not empty. *)
Definition nonempty_bare (o : string) : bool :=
  negb (String.eqb (split_last_dot o) "").

(** Strict order of Python string comparison. *)
Definition str_lt (a b : string) : Prop := String.ltb a b = true.

(* ------------------------------------------------------------------ *)
(** ** ERD pipeline (src/ui/erd_ui.py): [_filter_and_process_tables],
    [_filter_related_data], [_collect_table_info] and the graph step of
    [_handle_erd_generation] *)

(** The frames returned by [_fetch_all_schema_metadata]. *)
Record erd_frames := {
  d_cols : list col_row; d_pks : list pk_row; d_fks : list fk_row;
  d_idx : list idx_row; d_rc : list rc_row
}.

Definition pair_eqb (x y : table_row) : bool :=
  String.eqb (fst x) (fst y) && String.eqb (snd x) (snd y).

(** [(s, t) in table_pairs] *)
Definition pair_in (pairs : list table_row) (s t : string) : bool :=
  existsb (fun p => pair_eqb p (s, t)) pairs.

(** [_filter_related_data]: the columns, primary keys, indexes and row
    counts of a kept (schema, table); the foreign keys whose child table
    is kept. Filtering an empty frame gives it back unchanged. *)
Definition _filter_related_data (d : erd_frames) (pairs : list table_row)
    : erd_frames :=
  {| d_cols := List.filter (fun c => pair_in pairs (c_schema c) (c_table c)) (d_cols d);
     d_pks := List.filter (fun r => pair_in pairs (p_schema r) (p_table r)) (d_pks d);
     d_fks := List.filter (fun r => pair_in pairs (f_child_schema r) (f_child_table r))
                (d_fks d);
     d_idx := List.filter (fun r => pair_in pairs (i_schema r) (i_table r)) (d_idx d);
     d_rc := List.filter (fun r => pair_in pairs (r_schema r) (r_table r)) (d_rc d) |}.

(** [DataFrame.drop_duplicates()]: the first occurrence of each row, in
    frame order. *)
Fixpoint drop_duplicates_from (seen : list table_row) (l : list table_row)
    : list table_row :=
  match l with
  | [] => []
  | x :: r =>
      if existsb (pair_eqb x) seen then drop_duplicates_from seen r
      else x :: drop_duplicates_from (x :: seen) r
  end.

Definition drop_duplicates (l : list table_row) : list table_row :=
  drop_duplicates_from [] l.

(** The order of [sort_values([schema_col, table_col])]: by schema, then
    by table name. *)
Definition pair_ltb (x y : table_row) : bool :=
  String.ltb (fst x) (fst y)
  || (String.eqb (fst x) (fst y) && String.ltb (snd x) (snd y)).

Fixpoint insert_pair (x : table_row) (l : list table_row) : list table_row :=
  match l with
  | [] => [x]
  | y :: r => if pair_ltb y x then y :: insert_pair x r else x :: l
  end.

(** [sort_values]; the rows are distinct after [drop_duplicates], so
    every sorting algorithm gives this order. *)
Definition sort_values (l : list table_row) : list table_row :=
  fold_right insert_pair [] l.

(** [cols[[schema_col, table_col]].drop_duplicates().sort_values(...)] *)
Definition tables_frame (cols : list col_row) : list table_row :=
  sort_values (drop_duplicates (map (fun c => (c_schema c, c_table c)) cols)).

(** [_filter_and_process_tables], with [table_info] already collected:
    the kept tables and the frames the graph is built from. When no
    table is kept, the tables frame is empty and the frames are returned
    unfiltered. *)
Definition _filter_and_process_tables (d : erd_frames) (ti : table_info_map)
    : list table_row * erd_frames :=
  let tables := tables_frame (d_cols d) in
  match fst (_filter_unused_tables tables ti) with
  | [] => ([], d)
  | filtered_tables => (filtered_tables, _filter_related_data d filtered_tables)
  end.

(** The graph step of [_handle_erd_generation]: no graph when the
    columns frame is empty or when no table is left after filtering. *)
Definition erd_generation (d : erd_frames) (ti : table_info_map)
    (cluster_by_schema show_schema_prefix : bool) (max_cols : nat)
    : option digraph :=
  match d_cols d with
  | [] => None
  | _ :: _ =>
      let '(tables, fd) := _filter_and_process_tables d ti in
      match tables with
      | [] => None
      | _ :: _ =>
          Some (build_graph tables (d_cols fd) (d_pks fd) (d_fks fd) (d_idx fd)
                  (d_rc fd) cluster_by_schema show_schema_prefix max_cols)
      end
  end.

(** [st.session_state.schema_metadata]: snapshots by cache key. *)
Abbreviation schema_cache := (gmap string snapshot).

(** [f"{environment}_{schema}"] *)
Definition cache_key (env schema : string) : string := env ++ "_" ++ schema.

(** [for table, info in schema_data.get('table_info', {}).items():
       table_info[(schema, table)] = info] *)
Definition add_table_info (schema : string) (sd : snapshot) (ti : table_info_map)
    : table_info_map :=
  fold_left (fun acc (kv : string * table_meta) => <[(schema, kv.1) := kv.2]> acc)
    (map_to_list (sn_table_info sd)) ti.

(** The loop of [_collect_table_info]: a cached snapshot is used as is;
    otherwise [load_schema_metadata] runs against the schema's database
    ([loader schema]) and its result is cached. Returns the table info and
    the cache afterwards. *)
Fixpoint collect_table_info_loop (env : string) (loader : string -> db_env)
    (sels : list string) (cache : schema_cache) (ti : table_info_map)
    : table_info_map * schema_cache :=
  match sels with
  | [] => (ti, cache)
  | schema :: rest =>
      let key := cache_key env schema in
      let '(schema_data, cache') :=
        match cache !! key with
        | Some sd => (sd, cache)
        | None =>
            let sd := load_schema_metadata (loader schema) in (sd, <[key := sd]> cache)
        end in
      collect_table_info_loop env loader rest cache'
        (add_table_info schema schema_data ti)
  end.

(** [_collect_table_info] *)
Definition _collect_table_info (env : string) (loader : string -> db_env)
    (sels : list string) (cache : schema_cache) : table_info_map * schema_cache :=
  collect_table_info_loop env loader sels cache ∅.

(** [_filter_unused_tables(tables, sel_schemas)], with its call to
    [_collect_table_info]: the kept tables, the exclusions and the cache
    afterwards. *)
Definition filter_unused_tables_collect (env : string) (loader : string -> db_env)
    (tables : list table_row) (sels : list string) (cache : schema_cache)
    : list table_row * list exclusion * schema_cache :=
  let '(ti, cache') := _collect_table_info env loader sels cache in
  let '(kept, excl) := _filter_unused_tables tables ti in
  (kept, excl, cache').

(* ------------------------------------------------------------------ *)
(** ** Load success path (src/services/database_service.py) *)

(** A database that answers every query: the tables query with
    [tables_rows] (at least one row) and the columns query with
    [columns_rows]. *)
Definition answering_env (tables_rows : list tables_q_row)
    (columns_rows : list (string * string)) : db_env :=
  {| connect_ok := true; q_tables := Some tables_rows;
     q_columns := Some columns_rows; q_show_tables := None |}.

(* ------------------------------------------------------------------ *)
(** ** API-based analysis (src/services/git_analysis_service.py) *)

(** An entry of [repo_data['files']]: its path and content. *)
Record api_file := { af_path : string; af_content : string }.

(** The loop of [CodeImpactAnalyzer.analyze_table_impact_api]: nothing
    catches an exception of [_find_pattern_matches_in_content]. *)
Fixpoint scan_api_files `{re_module} (patterns : list pattern) (exts : list string)
    (fs : list api_file) (results : impact_result) : outcome impact_result :=
  match fs with
  | [] => Ok results
  | file_info :: rest =>
      if should_scan exts (af_path file_info) then
        match pattern_matches patterns (af_content file_info) with
        | None => Raised
        | Some [] => scan_api_files patterns exts rest results
        | Some matches =>
            scan_api_files patterns exts rest
              {| files := files results ++
                   [{| fr_path := af_path file_info; fr_matches := matches;
                       fr_count := length matches |}];
                 total_references := total_references results + length matches |}
        end
      else scan_api_files patterns exts rest results
  end.

(** [CodeImpactAnalyzer.analyze_table_impact_api] *)
Definition analyze_table_impact_api `{re_module} (repo_files : list api_file)
    (table_name : string) (exts : list string) : outcome impact_result :=
  scan_api_files (analyzer_table_patterns table_name) exts repo_files empty_impact.

(** [CodeImpactAnalyzer._identify_unused_objects] *)
Definition _identify_unused_objects (all_code_content : string)
    (all_tables all_columns : list string) : unused_result :=
  {| unused_tables := unreferenced all_code_content all_tables;
     unused_columns := firstn 100 (unreferenced all_code_content all_columns);
     total_tables := length all_tables;
     total_columns := length all_columns |}.

(** The loop of [find_unused_objects_api] building [all_code_content]. *)
Fixpoint api_code_content (exts : list string) (fs : list api_file) (acc : string)
    : string :=
  match fs with
  | [] => acc
  | file_info :: rest =>
      let acc' :=
        if should_scan exts (af_path file_info)
        then acc ++ (lower (af_content file_info) ++ String "010"%char EmptyString)
        else acc in
      api_code_content exts rest acc'
  end.

(** [CodeImpactAnalyzer.find_unused_objects_api] *)
Definition find_unused_objects_api (repo_files : list api_file)
    (all_tables all_columns exts : list string) : unused_result :=
  _identify_unused_objects (api_code_content exts repo_files "") all_tables all_columns.

(** The files of the local walk that hold the same paths and contents. *)
Definition as_src_files (fs : list api_file) : list src_file :=
  map (fun f => {| file_name := af_path f; file_content := Some (af_content f) |}) fs.

(** A file of [results['files']] in [_analyze_files_via_api] and
    [_analyze_github_repo_fast]. *)
Record fetched_file := { ff_path : string; ff_content : string; ff_size : nat }.

Definition target_extensions : list string := [".java"; ".py"; ".sql"; ".js"; ".ts"].

(** The download loop: [fetch path] is the decoded content of the file,
    or [None] when the request raises or its status is not 200; an empty
    content is falsy and skipped; [content[:limit]] is kept with the full
    length. *)
Fixpoint fetch_files (fetch : string -> option string) (limit : nat)
    (paths : list string) : list fetched_file :=
  match paths with
  | [] => []
  | file_path :: rest =>
      match fetch file_path with
      | Some content =>
          if String.eqb content "" then fetch_files fetch limit rest
          else {| ff_path := file_path; ff_content := substring 0 limit content;
                  ff_size := String.length content |} :: fetch_files fetch limit rest
      | None => fetch_files fetch limit rest
      end
  end.

(** [GitAnalysisService._analyze_files_via_api] (its [files]). *)
Definition _analyze_files_via_api (fetch : string -> option string)
    (file_paths : list string) : list fetched_file :=
  let filtered_files := List.filter (should_scan target_extensions) file_paths in
  fetch_files fetch 10000 (firstn 50 filtered_files).

(** An item of a Git tree listing. *)
Record tree_item := { ti_path : string; ti_type : string }.

Definition key_dirs : list string :=
  ["src/"; "main/"; "service/"; "controller/"; "repository/"; "dao/"; "model/"].

Fixpoint count_char (c : ascii) (s : string) : nat :=
  match s with
  | EmptyString => 0
  | String x s' => (if Ascii.eqb x c then 1 else 0) + count_char c s'
  end.

(** [GitAnalysisService._filter_relevant_files];
    [len(path.split('/'))] is one more than the number of slashes. *)
Definition _filter_relevant_files (tree_items : list tree_item) : list string :=
  map ti_path (List.filter (fun item =>
    String.eqb (ti_type item) "blob" &&
    (should_scan target_extensions (ti_path item) &&
     (existsb (fun key_dir => contains key_dir (ti_path item)) key_dirs
      || (S (count_char "/"%char (ti_path item)) <=? 2)%nat))) tree_items).

(** [GitAnalysisService._analyze_github_repo_fast] (its [files]): the
    tree listing is [None] when its status is not 200. *)
Definition _analyze_github_repo_fast (tree : option (list tree_item))
    (fetch : string -> option string) : list fetched_file :=
  match tree with
  | None => []
  | Some items => fetch_files fetch 5000 (firstn 20 (_filter_relevant_files items))
  end.

(** A repository of the organisation listing; [updated_at] as a time
    stamp in seconds, [archived] as [repo.get('archived', False)]
    ([None] when the key is missing). *)
Record repo_json := {
  rj_name : string; rj_updated_at : Z; rj_archived : option bool;
  rj_default_branch : string
}.

Record repo_info := { ri_name : string; ri_default_branch : string }.

(** [GitAnalysisService._get_active_repositories], at time [now]
    (seconds); the [language] field is copied through and not modelled. *)
Definition _get_active_repositories (status : Z) (repositories : list repo_json)
    (now : Z) : outcome (list repo_info) :=
  if negb (Z.eqb status 200) then Raised
  else
    let cutoff_date := (now - 180 * 86400)%Z in
    Ok (firstn 10
          (map (fun repo => {| ri_name := rj_name repo;
                               ri_default_branch := rj_default_branch repo |})
             (List.filter (fun repo =>
                (cutoff_date <? rj_updated_at repo)%Z
                && negb (match rj_archived repo with Some b => b | None => false end))
                repositories))).

(** [urllib.parse.quote(project_path, safe='')] on characters up to
    U+00FF: the unreserved characters [A-Za-z0-9_.-~] are kept, every
    other byte of the UTF-8 encoding becomes [%XX] (upper-case hex). *)
Definition hex_digit (n : nat) : ascii :=
  if (n <? 10)%nat then ascii_of_nat (48 + n) else ascii_of_nat (55 + n).

Definition pct_byte (b : nat) : string :=
  String "%"%char (String (hex_digit (b / 16)) (String (hex_digit (b mod 16)) EmptyString)).

Definition always_safe (c : ascii) : bool :=
  let n := nat_of_ascii c in
  ((48 <=? n)%nat && (n <=? 57)%nat) || ((65 <=? n)%nat && (n <=? 90)%nat)
  || ((97 <=? n)%nat && (n <=? 122)%nat)
  || (n =? 95)%nat || (n =? 46)%nat || (n =? 45)%nat || (n =? 126)%nat.

Definition quote_char (c : ascii) : string :=
  let n := nat_of_ascii c in
  if always_safe c then String c EmptyString
  else if (n <? 128)%nat then pct_byte n
  else pct_byte (192 + n / 64) ++ pct_byte (128 + n mod 64).

Fixpoint quote (s : string) : string :=
  match s with
  | EmptyString => EmptyString
  | String c s' => quote_char c ++ quote s'
  end.

(** [GitAnalysisService._encode_project_path] *)
Definition _encode_project_path (project_path : string) : string := quote project_path.

(* ------------------------------------------------------------------ *)
(** ** HTML labels (src/services/erd_service.py, [html_escape]) *)

(** [s.replace(c, rep)] for a one-character [c]. *)
Fixpoint replace_char (c : ascii) (rep : string) (s : string) : string :=
  match s with
  | EmptyString => EmptyString
  | String x s' =>
      (if Ascii.eqb x c then rep else String x EmptyString) ++ replace_char c rep s'
  end.

(** [html_escape]: [(s or "")] then the three replacements in order. *)
Definition html_escape (s : option string) : string :=
  let s0 := match s with Some x => x | None => "" end in
  replace_char ">"%char "&gt;" (replace_char "<"%char "&lt;" (replace_char "&"%char "&amp;" s0)).

(** The replacement of one character by [html_escape]. *)
Definition escape_char (x : ascii) : string :=
  if Ascii.eqb x "&"%char then "&amp;"
  else if Ascii.eqb x "<"%char then "&lt;"
  else if Ascii.eqb x ">"%char then "&gt;"
  else String x EmptyString.

Fixpoint escape_all (s : string) : string :=
  match s with
  | EmptyString => EmptyString
  | String x s' => escape_char x ++ escape_all s'
  end.

(* ------------------------------------------------------------------ *)
(** ** Column comparison (src/tabs/environment_compare.py) *)

(** A row of the differences frame of [_display_column_comparison]: the
    table, the sorted columns only in the first and only in the second
    environment (shown as "None" when empty), and the number of common
    columns. *)
Record col_diff := {
  cd_table : string; cd_only_in_1 : list string; cd_only_in_2 : list string;
  cd_common : nat
}.

(** [set(data.get('columns', {}).get(table, []))] *)
Definition col_set (data : snapshot) (table : string) : gset string :=
  list_to_set (match sn_columns data !! table with Some cs => cs | None => [] end).

(** [sorted(s)] of a set of strings. *)
Definition sorted_set (s : gset string) : list string :=
  fold_right insert_key [] (elements s).

(** [_display_column_comparison]: the differences rows, one per common
    table (in sorted order) whose column sets differ. *)
Definition _display_column_comparison (data1 data2 : snapshot) : list col_diff :=
  flat_map (fun table =>
    let cols1 := col_set data1 table in
    let cols2 := col_set data2 table in
    if decide (cols1 = cols2) then []
    else [ {| cd_table := table; cd_only_in_1 := sorted_set (cols1 ∖ cols2);
              cd_only_in_2 := sorted_set (cols2 ∖ cols1);
              cd_common := size (cols1 ∩ cols2) |} ])
    (sorted_set (common (compare_tables data1 data2))).

(* ------------------------------------------------------------------ *)
(** ** Connection handling (src/utils/connection_utils.py) *)

(** [_retry_connection]: [attempt_ok a] tells whether attempt [a]
    ([engine.connect()] and [SELECT 1]) succeeds. The result (a value, or
    the exception re-raised) and the attempts made; falling off the loop
    would return [None]. *)
Fixpoint retry_loop (attempts : list nat) (attempt_ok : nat -> bool)
    : outcome (option bool) * list nat :=
  match attempts with
  | [] => (Ok None, [])
  | attempt :: rest =>
      if attempt_ok attempt then (Ok (Some true), [attempt])
      else if (attempt <? 2)%nat then
        let '(o, made) := retry_loop rest attempt_ok in (o, attempt :: made)
      else (Raised, [attempt])
  end.

Definition _retry_connection (attempt_ok : nat -> bool) : outcome (option bool) * list nat :=
  retry_loop (seq 0 3) attempt_ok.

(** The session fields [reconnect_if_needed] reads or writes. *)
Record conn_session := {
  connected : bool; has_connection_params : bool; engine_id : nat
}.

(** [_attempt_reconnect]: its first statement calls
    [execute_reconnect_scripts] with one argument, and that function has
    two required parameters ([environment], [environments_config]); the
    call raises [TypeError] before anything else runs. *)
Definition _attempt_reconnect (ss : conn_session) : outcome bool * conn_session :=
  (Raised, ss).

(** [reconnect_if_needed]: [test_ok] tells whether [_test_connection]
    succeeds. *)
Definition reconnect_if_needed (ss : conn_session) (test_ok : bool)
    : bool * conn_session :=
  if negb (connected ss) || negb (has_connection_params ss) then (false, ss)
  else if test_ok then (true, ss)
  else
    match _attempt_reconnect ss with
    | (Ok b, ss') => (b, ss')
    | (Raised, ss') =>
        (false, {| connected := false; has_connection_params := has_connection_params ss';
                   engine_id := engine_id ss' |})
    end.

(* ------------------------------------------------------------------ *)
(** ** Session defaults (src/utils/session_utils.py) *)

(** [initialize_session_state] over a session whose values have type
    [V]: each default is set only when its name is missing. *)
Definition initialize_session_state {V} (session_vars : list (string * V))
    (session : gmap string V) : gmap string V :=
  fold_left (fun m (kv : string * V) =>
    match m !! kv.1 with Some _ => m | None => <[kv.1 := kv.2]> m end)
    session_vars session.

(* ------------------------------------------------------------------ *)
(** ** Auxiliary notions for the properties below *)

(** Strict lexicographic order on (schema, table) rows. *)
Definition pair_lt (x y : table_row) : Prop := pair_ltb x y = true.

(** What [table_info] holds after the loop: the entry of (s, t) is the
    one of table [t] in the snapshot cached for [s], for the schemas
    processed. *)
Definition info_inv (env : string) (done_ : list string) (ti : table_info_map)
    (cache : schema_cache) : Prop :=
  (forall s t, ti !! (s, t) =
     if in_dec string_dec s done_
     then (cache !! cache_key env s) ≫= (fun sd => sn_table_info sd !! t)
     else None) /\
  (forall s, In s done_ -> is_Some (cache !! cache_key env s)).

(** The entry that the scan loop of [analyze_table_impact_local] adds for
    one file (none when it is skipped or has no match). *)
Definition file_entry `{re_module} (patterns : list pattern) (exts : list string)
    (f : src_file) : list file_result :=
  if should_scan exts (file_name f) then
    match file_content f with
    | Some content =>
        match pattern_matches patterns content with
        | None | Some [] => []
        | Some ms => [{| fr_path := file_name f; fr_matches := ms; fr_count := length ms |}]
        end
    | None => []
    end
  else [].

(* ------------------------------------------------------------------ *)
(** ** Sample inputs *)

Definition shop_col (table column : string) : col_row :=
  {| c_schema := "shop"; c_table := table; c_column := column;
     c_dtype := "int"; c_nullable := "NO";
     c_char_len := Some ""; c_num_precision := Some "10"; c_num_scale := Some "0" |}.

(** The frames of schema [shop], the columns frame listing [orders]
    before [customers]. *)
Definition shop_frames : erd_frames :=
  {| d_cols := [shop_col "orders" "id"; shop_col "orders" "customer_id";
                shop_col "customers" "id"];
     d_pks := [];
     d_fks := shop_fks;
     d_idx := [];
     d_rc := [] |}.

Definition updated_meta (stamp : string) : table_meta :=
  {| last_update := PyObj stamp; created := PyObj stamp;
     rows := 0%Z; data_size := 0%Z; index_size := 0%Z |}.

(** Both [shop] tables have an update time. *)
Definition shop_info : table_info_map :=
  <[("shop", "customers") := updated_meta "2024-05-01"]>
    (<[("shop", "orders") := updated_meta "2024-05-02"]> ∅).

(** The first match of the [orders] patterns in the one-line query. *)
Definition orders_line_match : match_rec :=
  {| m_line := 1; m_content := "SELECT id FROM orders WHERE id = 5";
     m_pattern := "\borders\b" |}.

(** All the matches of the [orders] patterns in that query. *)
Definition orders_line_matches : list match_rec :=
  [orders_line_match;
   {| m_line := 1; m_content := "SELECT id FROM orders WHERE id = 5";
      m_pattern := "FROM\s+orders\b" |}].

Definition shop_table_row (name : string) (rows_ : Z) : tables_q_row :=
  {| tq_name := name; tq_update_time := PyObj "2024-05-01";
     tq_create_time := PyObj "2024-01-01"; tq_rows := rows_;
     tq_data_length := 0%Z; tq_index_length := 0%Z |}.

(** A tables query answering [orders] twice. *)
Definition shop_tables_rows : list tables_q_row :=
  [shop_table_row "orders" 1; shop_table_row "customers" 2; shop_table_row "orders" 3].

Definition shop_columns_rows : list (string * string) :=
  [("orders", "id"); ("customers", "id"); ("orders", "customer_id")].

(* ================================================================== *)
(** * Properties *)

(* ------------------------------------------------------------------ *)
(** ** Unused-Table Filter *)


Lemma is_unused_table_spec (lu : pyval) :
  _is_unused_table lu =
  negb (present_value lu && negb (str_in (lower (py_str lu)) null_sentinels)).
Proof. destruct lu; simpl; auto. rewrite negb_involutive. reflexivity. Qed.

Lemma filter_unused_tables_eq (ts : list table_row) (ti : table_info_map) :
  _filter_unused_tables ts ti =
  (List.filter (spec_keeps ti) ts,
   map (exclusion_of ti) (List.filter (fun r => negb (spec_keeps ti r)) ts)).
Proof.
  induction ts as [|[s t] ts IH]; simpl; [reflexivity|].
  rewrite IH. unfold spec_keeps, exclusion_of. simpl.
  destruct (_is_enum_table t); simpl; [reflexivity|].
  rewrite is_unused_table_spec.
  destruct (present_value _ && _); reflexivity.
Qed.

Lemma filter_twice {A} (f : A -> bool) (l : list A) :
  List.filter f (List.filter f l) = List.filter f l.
Proof.
  induction l as [|x l IH]; simpl; [reflexivity|].
  destruct (f x) eqn:Hf; simpl; [rewrite Hf, IH|]; auto.
Qed.

Lemma filter_negb_after {A} (f : A -> bool) (l : list A) :
  List.filter (fun x => negb (f x)) (List.filter f l) = [].
Proof.
  induction l as [|x l IH]; simpl; [reflexivity|].
  destruct (f x) eqn:Hf; simpl; [rewrite Hf|]; auto.
Qed.

(** C2: the filter keeps a table exactly when its lowercased name
    contains an enum/lookup keyword or its [last_update] is present and
    not a null sentinel; every other table, and only those, yields an
    exclusion record, in table order. *)
Theorem filter_unused_tables_keeps_iff (ts : list table_row) (ti : table_info_map) :
  fst (_filter_unused_tables ts ti) = List.filter (spec_keeps ti) ts /\
  snd (_filter_unused_tables ts ti) =
    map (exclusion_of ti) (List.filter (fun r => negb (spec_keeps ti r)) ts) /\
  (forall row, In row (fst (_filter_unused_tables ts ti)) <->
     In row ts /\ spec_keeps ti row = true).
Proof.
  rewrite filter_unused_tables_eq. simpl.
  split; [reflexivity|]. split; [reflexivity|].
  intros row. apply List.filter_In.
Qed.

(** C5: re-running the filter on its own kept output with the same
    [table_info] keeps every table and excludes none. *)
Theorem filter_unused_tables_idempotent (ts : list table_row) (ti : table_info_map) :
  _filter_unused_tables (fst (_filter_unused_tables ts ti)) ti =
  (fst (_filter_unused_tables ts ti), []).
Proof.
  rewrite !filter_unused_tables_eq. simpl.
  rewrite filter_twice, filter_negb_after. reflexivity.
Qed.

(* ------------------------------------------------------------------ *)
(** ** Schema Diff Engine *)

(** C6: the diff is symmetric up to swapping labels: the tables only in
    A for [diff(A, B)] are the tables only in B for [diff(B, A)], namely
    [tables(A) ∖ tables(B)]; [common] is the intersection either way. *)
Theorem compare_tables_swap (A B : snapshot) :
  only_in_1 (compare_tables A B) = only_in_2 (compare_tables B A) /\
  only_in_1 (compare_tables A B) =
    (list_to_set (sn_tables A) : gset string) ∖ list_to_set (sn_tables B) /\
  only_in_2 (compare_tables A B) =
    (list_to_set (sn_tables B) : gset string) ∖ list_to_set (sn_tables A) /\
  common (compare_tables A B) =
    (list_to_set (sn_tables A) : gset string) ∩ list_to_set (sn_tables B) /\
  common (compare_tables A B) = common (compare_tables B A) /\
  (forall t, t ∈ only_in_1 (compare_tables A B) <->
     In t (sn_tables A) /\ ~ In t (sn_tables B)).
Proof.
  unfold compare_tables; simpl.
  split; [reflexivity|]. split; [reflexivity|]. split; [reflexivity|].
  split; [reflexivity|]. split.
  - apply set_eq. intros x. set_solver.
  - intros t. rewrite elem_of_difference, !elem_of_list_to_set,
      !list_elem_of_In. reflexivity.
Qed.

(* ------------------------------------------------------------------ *)
(** ** Metadata load failure *)

(** C7: when any step that [load_schema_metadata] executes raises
    (connecting, the tables query, the columns query, or the [SHOW TABLES]
    fallback), the result is the empty snapshot: no table, empty
    [columns] and [table_info] maps, and nothing is propagated. *)
Theorem load_schema_metadata_failure_empty (env : db_env) :
  load_raises env = true -> load_schema_metadata env = empty_snapshot.
Proof.
  unfold load_raises, load_schema_metadata, load_body.
  destruct (connect_ok env); simpl; [|reflexivity].
  destruct (q_tables env) as [[|r rs]|]; simpl; try reflexivity.
  - destruct (q_show_tables env); [discriminate|reflexivity].
  - destruct (q_columns env); [discriminate|reflexivity].
Qed.

Lemma load_schema_metadata_failure_empty_witness :
  load_raises env_columns_query_fails = true /\
  load_schema_metadata env_columns_query_fails = empty_snapshot.
Proof.
  split; [reflexivity|].
  apply load_schema_metadata_failure_empty. reflexivity.
Defined.

(* ------------------------------------------------------------------ *)
(** ** Unused-object detection *)

Lemma append_empty_r (s : string) : s ++ "" = s.
Proof.
  induction s as [|c s IH]; [reflexivity|].
  change (String c (s ++ "") = String c s). f_equal. exact IH.
Qed.

Lemma concat_empty_cons (x : string) (l : list string) :
  String.concat "" (x :: l) = x ++ String.concat "" l.
Proof. destruct l; simpl; [symmetry; apply append_empty_r|reflexivity]. Qed.

Lemma collect_code_content_eq (exts : list string) (files : list src_file) :
  collect_code_content exts files = terminated_blob exts files.
Proof.
  unfold terminated_blob.
  induction files as [|f fs IH]; [reflexivity|].
  cbn -[String.concat]. rewrite IH.
  destruct (should_scan exts (file_name f)); [|reflexivity].
  destruct (file_content f); cbn -[String.concat];
    [rewrite concat_empty_cons|]; reflexivity.
Qed.

Lemma length_firstn_le {A} (n : nat) (l : list A) : (length (firstn n l) <= n)%nat.
Proof. rewrite length_firstn. lia. Qed.

(** C3 (as corrected): a known table is reported unused exactly when its
    lowercased bare name (text after the last dot) does not occur in the
    blob made of every selected file's lowercased content followed by a
    newline; unused columns follow the same rule, and the reported list
    is the first 100 of them in input order. *)
Theorem find_unused_objects_spec (files : list src_file)
    (all_tables all_columns exts : list string) :
  let blob := terminated_blob exts files in
  let r := find_unused_objects files all_tables all_columns exts in
  (forall t, In t (unused_tables r) <->
     In t all_tables /\ contains (lower (split_last_dot t)) blob = false) /\
  unused_tables r =
    List.filter (fun t => negb (contains (lower (split_last_dot t)) blob)) all_tables /\
  unused_columns r =
    firstn 100 (List.filter
      (fun c => negb (contains (lower (split_last_dot c)) blob)) all_columns) /\
  (length (unused_columns r) <= 100)%nat.
Proof.
  intros blob r. subst blob r. unfold find_unused_objects, unreferenced. simpl.
  rewrite collect_code_content_eq.
  split; [|split; [reflexivity|split; [reflexivity|apply length_firstn_le]]].
  intros t. rewrite List.filter_In, negb_true_iff. reflexivity.
Qed.

(** C3: with the blob read as the plain concatenation of the contents, a
    name spanning two files would count as referenced, but the code
    reports it unused: files "ab" and "c", table [s.bc]. *)
Lemma find_unused_objects_file_boundary :
  In "s.bc" (unused_tables (find_unused_objects two_files ["s.bc"] [] [".py"])) /\
  contains (lower (split_last_dot "s.bc")) (spec_blob [".py"] two_files) = true.
Proof. vm_compute. split; [left; reflexivity|reflexivity]. Qed.

Lemma contains_empty_r (p : string) : contains p "" = true <-> p = "".
Proof. destruct p; simpl; split; intros H; congruence. Qed.

Lemma lower_empty_iff (s : string) : lower s = "" <-> s = "".
Proof. destruct s; simpl; split; intros H; congruence. Qed.

Lemma collect_code_content_none_scanned (exts : list string) (files : list src_file) :
  (forall f, In f files -> should_scan exts (file_name f) = false) ->
  collect_code_content exts files = "".
Proof.
  induction files as [|f fs IH]; intros H; [reflexivity|].
  cbn -[String.append]. rewrite (H f (or_introl eq_refl)).
  rewrite IH; [reflexivity|]. intros g Hg. apply H. right. exact Hg.
Qed.


Lemma unreferenced_empty_blob (objs : list string) :
  unreferenced "" objs = List.filter nonempty_bare objs.
Proof.
  unfold unreferenced, nonempty_bare. apply List.filter_ext. intros o.
  f_equal. destruct (contains _ "") eqn:Hc; symmetry.
  - apply String.eqb_eq, lower_empty_iff, contains_empty_r, Hc.
  - apply String.eqb_neq. intros He. apply lower_empty_iff in He.
    apply contains_empty_r in He. congruence.
Qed.

Lemma unreferenced_unmatched (blob : string) (objs : list string) :
  (forall o, In o objs -> split_last_dot o <> "" ->
     contains (lower (split_last_dot o)) blob = false) ->
  unreferenced blob objs = List.filter nonempty_bare objs.
Proof.
  intros H. unfold unreferenced, nonempty_bare. apply List.filter_ext_in.
  intros o Ho. destruct (String.eqb_spec (split_last_dot o) "") as [He|Hne].
  - rewrite He. destruct blob; reflexivity.
  - rewrite (H o Ho Hne). reflexivity.
Qed.

(** C10 (as corrected): when no file passes the extension allow-list,
    every known table and every known column with a non-empty bare name
    is unreferenced: the table list is those tables, the column list the
    first 100 such columns; and any corpus in which none of these bare
    names occurs gives the very same result. *)
Theorem find_unused_objects_no_scanned_files (files : list src_file)
    (all_tables all_columns exts : list string) :
  (forall f, In f files -> should_scan exts (file_name f) = false) ->
  unused_tables (find_unused_objects files all_tables all_columns exts) =
    List.filter nonempty_bare all_tables /\
  unused_columns (find_unused_objects files all_tables all_columns exts) =
    firstn 100 (List.filter nonempty_bare all_columns) /\
  (forall files' exts',
     (forall o, In o (all_tables ++ all_columns) -> split_last_dot o <> "" ->
        contains (lower (split_last_dot o)) (collect_code_content exts' files') = false) ->
     find_unused_objects files' all_tables all_columns exts' =
     find_unused_objects files all_tables all_columns exts).
Proof.
  intros Hnone.
  unfold find_unused_objects. rewrite (collect_code_content_none_scanned exts files Hnone).
  rewrite !unreferenced_empty_blob. simpl.
  split; [reflexivity|]. split; [reflexivity|].
  intros files' exts' Hun.
  rewrite !(unreferenced_unmatched (collect_code_content exts' files')); [reflexivity| |];
    intros o Ho; apply Hun; apply in_or_app; auto.
Qed.

Lemma find_unused_objects_no_scanned_files_witness :
  (forall f, In f no_sql_files -> should_scan [".sql"] (file_name f) = false) /\
  unused_tables (find_unused_objects no_sql_files ["shop.orders"] ["shop.orders.id"] [".sql"]) =
    List.filter nonempty_bare ["shop.orders"].
Proof.
  assert (H : forall f, In f no_sql_files -> should_scan [".sql"] (file_name f) = false).
  { intros f [<-|[]]. reflexivity. }
  split; [exact H|].
  apply (find_unused_objects_no_scanned_files no_sql_files ["shop.orders"]
           ["shop.orders.id"] [".sql"] H).
Defined.

(** C10: a column whose bare name is empty ([s.t.], text after the last
    dot is empty) is never reported, even over an empty blob, so the
    column list is not the first 100 known columns. *)
Lemma find_unused_objects_empty_bare_column :
  unused_columns (find_unused_objects no_sql_files [] ["s.t."] [".sql"]) = [] /\
  firstn 100 ["s.t."] <> [].
Proof. split; [vm_compute; reflexivity|discriminate]. Qed.

(* ------------------------------------------------------------------ *)
(** ** Reference scanning *)

Section SampleScans.
#[local] Existing Instance re_fragment_only.

(** C4: scanning the one-line corpus [SELECT id FROM orders WHERE id = 5]
    for [orders] does not yield a single match: the one file entry holds
    two matches, from the word-boundary pattern and from the FROM-clause
    pattern. The name is literal, so the [re] module is not
    consulted. *)
Lemma analyze_table_impact_orders_two_matches :
  ~ (exists m, flat_map fr_matches
                 (files (analyze_table_impact orders_query_files "orders" [".sql"])) = [m]
               /\ m_pattern m = "FROM\s+orders\b" /\ m_line m = 1%nat).
Proof. vm_compute. intros [m [H _]]. discriminate H. Qed.

End SampleScans.

Section ReferenceScan.
Context `{re_module}.

(** C4 (as corrected): the scan yields exactly one file entry, with two
    matches on line 1 (both carrying the whole line): first the raw
    word-boundary pattern, then the FROM-clause pattern; the total is 2.
    [CodeImpactAnalyzer.analyze_table_impact_local] gives the same. *)
Theorem analyze_table_impact_orders_line :
  analyze_table_impact orders_query_files "orders" [".sql"] =
  {| files :=
       [ {| fr_path := "query.sql";
            fr_matches :=
              [ {| m_line := 1; m_content := "SELECT id FROM orders WHERE id = 5";
                   m_pattern := "\borders\b" |};
                {| m_line := 1; m_content := "SELECT id FROM orders WHERE id = 5";
                   m_pattern := "FROM\s+orders\b" |} ];
            fr_count := 2 |} ];
     total_references := 2 |} /\
  analyze_table_impact_local orders_query_files "orders" [".sql"] =
  analyze_table_impact orders_query_files "orders" [".sql"].
Proof. split; vm_compute; reflexivity. Qed.

(** C9: one textual occurrence is recorded once per pattern that matches
    it: the line [FROM orders] holds one occurrence of [orders], yet both
    scanners record two matches for it (word-boundary and FROM-clause),
    so the file's count and the total exceed the occurrences. *)
Theorem scan_counts_occurrence_per_pattern :
  occurrences "orders" "FROM orders" = 1%nat /\
  map fr_count (files (analyze_table_impact from_orders_files "orders" [".sql"])) = [2%nat] /\
  total_references (analyze_table_impact from_orders_files "orders" [".sql"]) = 2%nat /\
  map m_pattern (flat_map fr_matches
    (files (analyze_table_impact from_orders_files "orders" [".sql"]))) =
    ["\borders\b"; "FROM\s+orders\b"] /\
  map fr_count (files (analyze_table_impact_local from_orders_files "orders" [".sql"])) = [2%nat] /\
  total_references (analyze_table_impact_local from_orders_files "orders" [".sql"]) = 2%nat.
Proof. vm_compute. repeat split. Qed.

End ReferenceScan.

(* ------------------------------------------------------------------ *)
(** ** Graph Builder: group keys of [groupby("schema")] *)

Lemma string_compare_refl (s : string) : String.compare s s = Eq.
Proof.
  induction s as [|a s IH]; [reflexivity|]. simpl.
  unfold Ascii.compare. rewrite N.compare_refl. exact IH.
Qed.

Lemma ascii_compare_lt_trans (a b c : ascii) :
  Ascii.compare a b = Lt -> Ascii.compare b c = Lt -> Ascii.compare a c = Lt.
Proof.
  unfold Ascii.compare. rewrite !N.compare_lt_iff. lia.
Qed.

Lemma string_compare_lt_trans (s1 s2 s3 : string) :
  String.compare s1 s2 = Lt -> String.compare s2 s3 = Lt ->
  String.compare s1 s3 = Lt.
Proof.
  revert s2 s3.
  induction s1 as [|a s1 IH]; intros [|b s2] [|c s3]; simpl; try congruence.
  destruct (Ascii.compare a b) eqn:Hab; try congruence.
  - apply Ascii.compare_eq_iff in Hab. subst b.
    destruct (Ascii.compare a c); try congruence. apply IH.
  - intros _. destruct (Ascii.compare b c) eqn:Hbc; try congruence.
    + apply Ascii.compare_eq_iff in Hbc. subst c. rewrite Hab. reflexivity.
    + intros _. rewrite (ascii_compare_lt_trans a b c Hab Hbc). reflexivity.
Qed.


Lemma str_lt_iff (a b : string) : str_lt a b <-> String.compare a b = Lt.
Proof.
  unfold str_lt, String.ltb. destruct (String.compare a b); split; congruence.
Qed.

Lemma str_lt_trans (a b c : string) : str_lt a b -> str_lt b c -> str_lt a c.
Proof. rewrite !str_lt_iff. apply string_compare_lt_trans. Qed.

Lemma str_lt_irrefl (a : string) : ~ str_lt a a.
Proof. rewrite str_lt_iff, string_compare_refl. discriminate. Qed.

Lemma str_lt_total (a b : string) :
  String.eqb a b = false -> String.ltb a b = false -> str_lt b a.
Proof.
  intros Hne Hlt. apply str_lt_iff.
  rewrite String.compare_antisym.
  unfold String.ltb in Hlt.
  destruct (String.compare a b) eqn:Hc; try discriminate; [|reflexivity].
  apply String.compare_eq_iff in Hc. subst b. rewrite String.eqb_refl in Hne.
  discriminate.
Qed.

Lemma insert_key_In (k x : string) (ks : list string) :
  In x (insert_key k ks) <-> k = x \/ In x ks.
Proof.
  induction ks as [|k' r IH]; simpl; [tauto|].
  destruct (String.eqb_spec k k') as [->|Hne]; [simpl; tauto|].
  destruct (String.ltb k k'); simpl; [tauto|]. rewrite IH. tauto.
Qed.

Lemma insert_key_sorted (k : string) (ks : list string) :
  StronglySorted str_lt ks -> StronglySorted str_lt (insert_key k ks).
Proof.
  induction ks as [|k' r IH]; intros Hs; simpl.
  - constructor; [constructor|constructor].
  - apply StronglySorted_inv in Hs as [Hr Hall].
    destruct (String.eqb k k') eqn:He; [constructor; assumption|].
    destruct (String.ltb k k') eqn:Hl.
    + constructor; [constructor; assumption|].
      constructor; [exact Hl|].
      apply List.Forall_forall. intros y Hy. rewrite List.Forall_forall in Hall.
      exact (str_lt_trans k k' y Hl (Hall y Hy)).
    + constructor; [apply IH; exact Hr|].
      apply List.Forall_forall. intros y Hy. apply insert_key_In in Hy as [Hy|Hy].
      * subst y. apply str_lt_total; assumption.
      * rewrite List.Forall_forall in Hall. apply Hall, Hy.
Qed.

Lemma group_keys_In (ts : list table_row) (k : string) :
  In k (group_keys ts) <-> In k (map fst ts).
Proof.
  unfold group_keys. induction ts as [|t ts IH]; simpl; [tauto|].
  rewrite insert_key_In, IH. split; intros [H|H]; auto.
Qed.

Lemma group_keys_sorted (ts : list table_row) :
  StronglySorted str_lt (group_keys ts).
Proof.
  unfold group_keys. induction ts as [|t ts IH]; simpl; [constructor|].
  apply insert_key_sorted, IH.
Qed.

Lemma strongly_sorted_nodup (ks : list string) :
  StronglySorted str_lt ks -> List.NoDup ks.
Proof.
  induction ks as [|k ks IH]; intros Hs; [constructor|].
  apply StronglySorted_inv in Hs as [Hr Hall]. constructor; [|apply IH, Hr].
  intros Hin. rewrite List.Forall_forall in Hall. exact (str_lt_irrefl k (Hall k Hin)).
Qed.

Lemma group_keys_nodup (ts : list table_row) : List.NoDup (group_keys ts).
Proof. apply strongly_sorted_nodup, group_keys_sorted. Qed.

(* ------------------------------------------------------------------ *)
(** ** Graph Builder: nodes and edges *)

Lemma group_rows_cons_ne (t : table_row) (l : list table_row) (k : string) :
  fst t <> k -> group_rows (t :: l) k = group_rows l k.
Proof.
  intros Hne. unfold group_rows. simpl.
  destruct (String.eqb_spec (fst t) k); [contradiction|reflexivity].
Qed.

Lemma flat_map_ext_In {A B} (f g : A -> list B) (l : list A) :
  (forall x, In x l -> f x = g x) -> flat_map f l = flat_map g l.
Proof.
  induction l as [|x l IH]; intros H; simpl; [reflexivity|].
  rewrite (H x (or_introl eq_refl)), IH; [reflexivity|].
  intros y Hy. apply H. right. exact Hy.
Qed.

(** Grouping by a duplicate-free key list that covers every row's schema
    only reorders the rows. *)
Lemma groups_permutation (l : list table_row) (keys : list string) :
  List.NoDup keys -> (forall t, In t l -> In (fst t) keys) ->
  Permutation (flat_map (group_rows l) keys) l.
Proof.
  intros Hnd. induction l as [|a l IH]; intros Hcov.
  - clear Hcov. induction keys as [|k ks IHk]; simpl; [constructor|].
    apply IHk. inversion Hnd; assumption.
  - destruct (in_split (fst a) keys (Hcov a (or_introl eq_refl)))
      as [k1 [k2 Hk]].
    assert (Hout : ~ In (fst a) (k1 ++ k2)).
    { pose proof (NoDup_remove_2 k1 k2 (fst a)) as Hr.
      rewrite <- Hk in Hr. exact (Hr Hnd). }
    assert (Hsame : forall ks, (forall k, In k ks -> In k (k1 ++ k2)) ->
              flat_map (group_rows (a :: l)) ks = flat_map (group_rows l) ks).
    { intros ks Hks. apply flat_map_ext_In. intros k Hin.
      apply group_rows_cons_ne. intros Heq. apply Hout. rewrite Heq.
      exact (Hks _ Hin). }
    assert (IH' : Permutation (flat_map (group_rows l) keys) l).
    { apply IH. intros t Ht. apply Hcov. right. exact Ht. }
    rewrite Hk in IH' |- *. rewrite !flat_map_app in IH' |- *. simpl in IH' |- *.
    rewrite (Hsame k1), (Hsame k2);
      [| intros k Hin; apply in_or_app; auto | intros k Hin; apply in_or_app; auto].
    unfold group_rows at 2. simpl. rewrite String.eqb_refl. simpl.
    fold (group_rows l (fst a)).
    rewrite app_comm_cons.
    eapply perm_trans; [apply Permutation_sym, Permutation_middle|].
    apply perm_skip. exact IH'.
Qed.

Lemma table_node_id columns pks fks indexes rowcounts sp mc (t : table_row) :
  n_id (table_node columns pks fks indexes rowcounts sp mc t) = node_id t.
Proof. destruct t; reflexivity. Qed.

Lemma build_graph_node_ids schema_tables columns pks fks indexes rowcounts
    cluster_by_schema show_schema_prefix max_cols :
  map n_id (all_nodes (build_graph schema_tables columns pks fks indexes rowcounts
                         cluster_by_schema show_schema_prefix max_cols)) =
  if cluster_by_schema
  then map node_id (flat_map (group_rows schema_tables) (group_keys schema_tables))
  else map node_id schema_tables.
Proof.
  unfold build_graph, all_nodes.
  destruct cluster_by_schema; simpl.
  - induction (group_keys schema_tables) as [|k ks IH]; simpl; [reflexivity|].
    rewrite !map_app, IH, map_map. f_equal. apply map_ext. intros t.
    apply table_node_id.
  - rewrite app_nil_r, map_map. apply map_ext. intros t. apply table_node_id.
Qed.

Lemma build_graph_nodes_perm schema_tables columns pks fks indexes rowcounts
    cluster_by_schema show_schema_prefix max_cols :
  Permutation
    (map n_id (all_nodes (build_graph schema_tables columns pks fks indexes rowcounts
                            cluster_by_schema show_schema_prefix max_cols)))
    (map node_id schema_tables).
Proof.
  rewrite build_graph_node_ids. destruct cluster_by_schema; [|reflexivity].
  apply Permutation_map, groups_permutation; [apply group_keys_nodup|].
  intros t Ht. apply group_keys_In, in_map, Ht.
Qed.

(** C1: with every foreign-key row's child and parent tables among the
    kept tables, the graph has one node per kept (schema, table), named
    [schema.table], and no other node (clustered or not); and both ends of
    every edge are nodes of the graph. *)
Theorem build_graph_nodes_are_kept_tables schema_tables columns pks fks indexes
    rowcounts cluster_by_schema show_schema_prefix max_cols :
  (forall r, In r fks ->
     In (f_child_schema r, f_child_table r) schema_tables /\
     In (f_parent_schema r, f_parent_table r) schema_tables) ->
  let g := build_graph schema_tables columns pks fks indexes rowcounts
             cluster_by_schema show_schema_prefix max_cols in
  Permutation (map n_id (all_nodes g)) (map node_id schema_tables) /\
  (forall e, In e (edges g) ->
     In (e_tail e) (map n_id (all_nodes g)) /\ In (e_head e) (map n_id (all_nodes g))).
Proof.
  intros Hfk g.
  assert (Hp : Permutation (map n_id (all_nodes g)) (map node_id schema_tables))
    by apply build_graph_nodes_perm.
  split; [exact Hp|].
  intros e He.
  assert (Hedges : edges g = map fk_edge fks)
    by (unfold g, build_graph; destruct cluster_by_schema; reflexivity).
  rewrite Hedges in He. apply in_map_iff in He as [r [<- Hr]].
  destruct (Hfk r Hr) as [Hc Hpar].
  split; apply (Permutation_in _ (Permutation_sym Hp)).
  - exact (in_map node_id _ _ Hc).
  - exact (in_map node_id _ _ Hpar).
Qed.

Lemma build_graph_nodes_are_kept_tables_witness :
  (forall r, In r shop_fks ->
     In (f_child_schema r, f_child_table r) shop_tables /\
     In (f_parent_schema r, f_parent_table r) shop_tables) /\
  Permutation
    (map n_id (all_nodes (build_graph shop_tables [] [] shop_fks [] [] true true 80)))
    (map node_id shop_tables).
Proof.
  assert (H : forall r, In r shop_fks ->
     In (f_child_schema r, f_child_table r) shop_tables /\
     In (f_parent_schema r, f_parent_table r) shop_tables).
  { intros r [<-|[]]. simpl. auto. }
  split; [exact H|].
  exact (proj1 (build_graph_nodes_are_kept_tables shop_tables [] [] shop_fks [] []
                  true true 80 H)).
Defined.

(* ------------------------------------------------------------------ *)
(** ** Graph Builder: emission order and determinism *)

Lemma strongly_sorted_app {A} (R : A -> A -> Prop) (l1 l2 : list A) :
  StronglySorted R l1 -> StronglySorted R l2 ->
  (forall x y, In x l1 -> In y l2 -> R x y) -> StronglySorted R (l1 ++ l2)%list.
Proof.
  induction l1 as [|x l1 IH]; intros H1 H2 Hx; simpl; [exact H2|].
  apply StronglySorted_inv in H1 as [H1 Hall]. constructor.
  - apply IH; auto. intros a b Ha Hb. apply Hx; [right|]; assumption.
  - apply List.Forall_forall. intros y Hy. apply in_app_or in Hy as [Hy|Hy].
    + rewrite List.Forall_forall in Hall. apply Hall, Hy.
    + apply Hx; [left; reflexivity|exact Hy].
Qed.

Lemma group_rows_fst (l : list table_row) (k : string) (t : table_row) :
  In t (group_rows l k) -> fst t = k.
Proof.
  unfold group_rows. rewrite List.filter_In. intros [_ H].
  apply String.eqb_eq, H.
Qed.

Lemma string_leb_refl (s : string) : String.leb s s = true.
Proof. unfold String.leb. rewrite string_compare_refl. reflexivity. Qed.

Lemma ltb_leb (a b : string) : String.ltb a b = true -> String.leb a b = true.
Proof. unfold String.ltb, String.leb. destruct (String.compare a b); congruence. Qed.

Lemma same_schema_sorted (k : string) (l : list table_row) :
  (forall t, In t l -> fst t = k) -> StronglySorted schema_le l.
Proof.
  induction l as [|x l IH]; intros H; constructor.
  - apply IH. intros t Ht. apply H. right. exact Ht.
  - apply List.Forall_forall. intros y Hy. unfold schema_le.
    rewrite (H x (or_introl eq_refl)), (H y (or_intror Hy)). apply string_leb_refl.
Qed.

Lemma groups_sorted (l : list table_row) (keys : list string) :
  StronglySorted str_lt keys ->
  StronglySorted schema_le (flat_map (group_rows l) keys).
Proof.
  induction keys as [|k ks IH]; intros Hs; simpl; [constructor|].
  apply StronglySorted_inv in Hs as [Hks Hall].
  apply strongly_sorted_app.
  - apply (same_schema_sorted k). apply group_rows_fst.
  - apply IH, Hks.
  - intros x y Hx Hy. apply in_flat_map in Hy as [k' [Hk' Hy]].
    unfold schema_le. rewrite (group_rows_fst _ _ _ Hx), (group_rows_fst _ _ _ Hy).
    apply ltb_leb. rewrite List.Forall_forall in Hall. apply Hall, Hk'.
Qed.

Lemma filter_app_eq {A} (f : A -> bool) (l1 l2 : list A) :
  List.filter f (l1 ++ l2)%list = (List.filter f l1 ++ List.filter f l2)%list.
Proof.
  induction l1 as [|x l1 IH]; simpl; [reflexivity|].
  destruct (f x); simpl; rewrite IH; reflexivity.
Qed.

Lemma filter_group_rows (l : list table_row) (k k' : string) :
  List.filter (fun t => String.eqb (fst t) k) (group_rows l k') =
  if String.eqb k' k then group_rows l k else [].
Proof.
  destruct (String.eqb_spec k' k) as [<-|Hne].
  - apply filter_twice.
  - unfold group_rows. induction l as [|x l IH]; simpl; [reflexivity|].
    destruct (String.eqb_spec (fst x) k') as [Hx|Hx]; simpl; [|exact IH].
    destruct (String.eqb_spec (fst x) k) as [Hy|Hy]; [congruence|exact IH].
Qed.

Lemma filter_groups (l : list table_row) (keys : list string) (k : string) :
  List.NoDup keys ->
  List.filter (fun t => String.eqb (fst t) k) (flat_map (group_rows l) keys) =
  if in_dec string_dec k keys then group_rows l k else [].
Proof.
  induction keys as [|k' ks IH]; intros Hnd; [reflexivity|].
  apply NoDup_cons_iff in Hnd as [Hout Hnd'].
  cbn [flat_map]. rewrite filter_app_eq, filter_group_rows, IH by exact Hnd'.
  destruct (String.eqb_spec k' k) as [Heq|Hne].
  - subst k'. destruct (in_dec string_dec k ks) as [Hin|_]; [contradiction|].
    destruct (in_dec string_dec k (k :: ks)) as [_|Hn];
      [apply app_nil_r|exfalso; apply Hn; left; reflexivity].
  - rewrite app_nil_l. destruct (in_dec string_dec k ks) as [Hin|Hn];
      destruct (in_dec string_dec k (k' :: ks)) as [Hin'|Hn']; try reflexivity.
    + exfalso. apply Hn'. right. exact Hin.
    + exfalso. destruct Hin' as [Heq|Hin']; [exact (Hne Heq)|exact (Hn Hin')].
Qed.

(** Grouping keeps, for every schema, its rows in frame order. *)
Lemma groups_stable (ts : list table_row) (k : string) :
  List.filter (fun t => String.eqb (fst t) k)
    (flat_map (group_rows ts) (group_keys ts)) =
  List.filter (fun t => String.eqb (fst t) k) ts.
Proof.
  rewrite filter_groups by apply group_keys_nodup.
  destruct (in_dec string_dec k (group_keys ts)) as [_|Hn]; [reflexivity|].
  symmetry. unfold group_rows. clear -Hn. induction ts as [|t ts IH]; simpl; [reflexivity|].
  destruct (String.eqb_spec (fst t) k) as [Heq|_].
  - exfalso. apply Hn, group_keys_In. left. exact Heq.
  - apply IH. intros Hin. apply Hn, group_keys_In. right.
    apply group_keys_In, Hin.
Qed.

Lemma existsb_perm {A} (f : A -> bool) (l l' : list A) :
  Permutation l l' -> existsb f l = existsb f l'.
Proof.
  induction 1 as [|x l l' _ IH|x y l|l l' l'' _ IH1 _ IH2]; simpl.
  - reflexivity.
  - rewrite IH. reflexivity.
  - destruct (f x), (f y); reflexivity.
  - rewrite IH1, IH2. reflexivity.
Qed.

Lemma column_rows_pks_perm (pks pks' : list pk_row) (fks : list fk_row)
    (cols : list col_row) (schema table : string) (total displayed max_cols : nat) :
  Permutation pks pks' ->
  column_rows cols schema table pks fks total displayed max_cols =
  column_rows cols schema table pks' fks total displayed max_cols.
Proof.
  intros Hp. revert displayed.
  induction cols as [|r cols IH]; intros displayed; simpl; [reflexivity|].
  destruct (max_cols <=? displayed)%nat; [reflexivity|].
  unfold column_line, in_pk_set. rewrite (existsb_perm _ _ _ Hp), IH. reflexivity.
Qed.

Lemma table_node_pks_perm columns (pks pks' : list pk_row) fks indexes rowcounts
    sp mc (t : table_row) :
  Permutation pks pks' ->
  table_node columns pks fks indexes rowcounts sp mc t =
  table_node columns pks' fks indexes rowcounts sp mc t.
Proof.
  intros Hp. destruct t as [s tn]. unfold table_node, build_table_label.
  rewrite (column_rows_pks_perm pks pks' fks _ _ _ _ _ _ Hp). reflexivity.
Qed.

(** C8: edges are not emitted in (schema, table) order: with foreign keys
    gathered for schema [b] before schema [a], the edge from [b.t2] comes
    before the edge from [a.t1], although [a.t1] sorts first. *)
Lemma build_graph_edges_follow_fk_rows :
  map e_tail (edges (build_graph two_schema_tables [] [] fks_b_then_a [] []
                       true true 80)) = ["b.t2"; "a.t1"] /\
  String.ltb "a.t1" "b.t2" = true.
Proof. split; reflexivity. Qed.

(* ------------------------------------------------------------------ *)
(** ** ERD pipeline: the tables frame *)

Lemma pair_eqb_eq (x y : table_row) : pair_eqb x y = true <-> x = y.
Proof.
  destruct x as [a b], y as [c d]; unfold pair_eqb; simpl.
  rewrite andb_true_iff, !String.eqb_eq. split.
  - intros [-> ->]. reflexivity.
  - intros H. inversion H. auto.
Qed.

Lemma pair_in_iff (ps : list table_row) (s t : string) :
  pair_in ps s t = true <-> In (s, t) ps.
Proof.
  unfold pair_in. rewrite existsb_exists. split.
  - intros [p [Hp He]]. apply pair_eqb_eq in He. subst p. exact Hp.
  - intros H. exists (s, t). split; [exact H|]. apply pair_eqb_eq. reflexivity.
Qed.

Lemma existsb_pair_eqb (x : table_row) (l : list table_row) :
  existsb (pair_eqb x) l = true <-> In x l.
Proof.
  rewrite existsb_exists. split.
  - intros [p [Hp He]]. apply pair_eqb_eq in He. subst p. exact Hp.
  - intros H. exists x. split; [exact H|]. apply pair_eqb_eq. reflexivity.
Qed.

Lemma drop_duplicates_from_In (seen l : list table_row) (x : table_row) :
  In x (drop_duplicates_from seen l) <-> In x l /\ ~ In x seen.
Proof.
  revert seen. induction l as [|y l IH]; intros seen; simpl.
  - tauto.
  - destruct (existsb (pair_eqb y) seen) eqn:E.
    + apply existsb_pair_eqb in E. rewrite IH. split.
      * tauto.
      * intros [[<-|H] Hn]; [contradiction|tauto].
    + simpl. rewrite IH. simpl.
      assert (Hy : ~ In y seen) by (intros H; apply existsb_pair_eqb in H; congruence).
      split.
      * intros [<-|[H1 H2]]; [tauto|]. split; [tauto|]. tauto.
      * intros [[<-|H] Hn]; [tauto|].
        destruct (pair_eqb y x) eqn:Exy.
        -- apply pair_eqb_eq in Exy. tauto.
        -- right. split; [exact H|]. intros [<-|H']; [|tauto].
           rewrite (proj2 (pair_eqb_eq y y) eq_refl) in Exy. discriminate.
Qed.

Lemma drop_duplicates_from_nodup (seen l : list table_row) :
  List.NoDup (drop_duplicates_from seen l).
Proof.
  revert seen. induction l as [|y l IH]; intros seen; simpl.
  - constructor.
  - destruct (existsb (pair_eqb y) seen); [apply IH|].
    constructor; [|apply IH].
    rewrite drop_duplicates_from_In. simpl. tauto.
Qed.


Lemma pair_lt_iff (x y : table_row) :
  pair_lt x y <-> str_lt (fst x) (fst y) \/ (fst x = fst y /\ str_lt (snd x) (snd y)).
Proof.
  unfold pair_lt, pair_ltb, str_lt. rewrite orb_true_iff, andb_true_iff, String.eqb_eq.
  reflexivity.
Qed.

Lemma pair_lt_trans (x y z : table_row) : pair_lt x y -> pair_lt y z -> pair_lt x z.
Proof.
  rewrite !pair_lt_iff.
  intros [H1|[E1 H1]] [H2|[E2 H2]].
  - left. eapply str_lt_trans; eauto.
  - left. rewrite <- E2. exact H1.
  - left. rewrite E1. exact H2.
  - right. split; [congruence|]. eapply str_lt_trans; eauto.
Qed.

Lemma pair_lt_irrefl (x : table_row) : ~ pair_lt x x.
Proof.
  rewrite pair_lt_iff. intros [H|[_ H]]; eapply str_lt_irrefl; eauto.
Qed.

Lemma pair_lt_total (x y : table_row) : x <> y -> pair_ltb y x = false -> pair_lt x y.
Proof.
  destruct x as [a b], y as [c d]. intros Hne Hlt.
  unfold pair_ltb in Hlt; simpl in Hlt. apply orb_false_iff in Hlt as [H1 H2].
  apply pair_lt_iff; simpl.
  destruct (String.eqb c a) eqn:Eca.
  - apply String.eqb_eq in Eca. subst c. right. split; [reflexivity|].
    simpl in H2. destruct (String.eqb b d) eqn:Ebd.
    + apply String.eqb_eq in Ebd. subst. contradiction.
    + apply str_lt_total; [rewrite String.eqb_sym; exact Ebd|exact H2].
  - left. apply str_lt_total; [exact Eca|exact H1].
Qed.

Lemma insert_pair_In (x z : table_row) (l : list table_row) :
  In z (insert_pair x l) <-> z = x \/ In z l.
Proof.
  induction l as [|y l IH]; simpl.
  - intuition.
  - destruct (pair_ltb y x); simpl; [rewrite IH|]; intuition.
Qed.

Lemma insert_pair_sorted (x : table_row) (l : list table_row) :
  StronglySorted pair_lt l -> ~ In x l -> StronglySorted pair_lt (insert_pair x l).
Proof.
  induction l as [|y l IH]; simpl; intros Hs Hn.
  - repeat constructor.
  - apply StronglySorted_inv in Hs as [Hs Hf].
    destruct (pair_ltb y x) eqn:E.
    + constructor; [apply IH; tauto|].
      apply List.Forall_forall. intros z Hz. apply insert_pair_In in Hz as [->|Hz].
      * exact E.
      * eapply List.Forall_forall in Hf; eauto.
    + assert (Hxy : pair_lt x y) by (apply pair_lt_total; [intros ->; tauto|exact E]).
      constructor; [constructor; assumption|].
      constructor; [exact Hxy|].
      apply List.Forall_forall. intros z Hz.
      eapply pair_lt_trans; [exact Hxy|]. eapply List.Forall_forall in Hf; eauto.
Qed.

Lemma sort_values_In (l : list table_row) (z : table_row) :
  In z (sort_values l) <-> In z l.
Proof.
  induction l as [|x l IH]; simpl; [tauto|].
  rewrite insert_pair_In, IH. intuition.
Qed.

Lemma sort_values_sorted (l : list table_row) :
  List.NoDup l -> StronglySorted pair_lt (sort_values l).
Proof.
  induction l as [|x l IH]; simpl; intros Hnd.
  - constructor.
  - apply NoDup_cons_iff in Hnd as [Hn Hnd].
    apply insert_pair_sorted; [apply IH, Hnd|].
    rewrite sort_values_In. exact Hn.
Qed.

(** X1: the tables frame built by [_filter_and_process_tables] lists each
    (schema, table) pair of the columns frame exactly once, in strictly
    ascending (schema, table) order, and nothing else. *)
Theorem tables_frame_sorted_distinct (cols : list col_row) :
  StronglySorted pair_lt (tables_frame cols) /\
  (forall p, In p (tables_frame cols) <->
     exists c, In c cols /\ p = (c_schema c, c_table c)).
Proof.
  unfold tables_frame, drop_duplicates. split.
  - apply sort_values_sorted, drop_duplicates_from_nodup.
  - intros p. rewrite sort_values_In, drop_duplicates_from_In, in_map_iff. simpl.
    split.
    + intros [[c [Hc Hin]] _]. exists c. split; [exact Hin|symmetry; exact Hc].
    + intros [c [Hin Hc]]. split; [|tauto]. exists c. split; [symmetry; exact Hc|exact Hin].
Qed.

(* ------------------------------------------------------------------ *)
(** ** ERD pipeline: the graph of the kept tables *)

Lemma strongly_sorted_filter {A} (R : A -> A -> Prop) (f : A -> bool) (l : list A) :
  StronglySorted R l -> StronglySorted R (List.filter f l).
Proof.
  induction l as [|x l IH]; simpl; intros Hs; [constructor|].
  apply StronglySorted_inv in Hs as [Hs Hf].
  destruct (f x); [|apply IH, Hs].
  constructor; [apply IH, Hs|].
  apply List.Forall_forall. intros y Hy. apply filter_In in Hy as [Hy _].
  eapply List.Forall_forall in Hf; eauto.
Qed.

Lemma strongly_sorted_impl {A} (R S : A -> A -> Prop) (l : list A) :
  (forall x y, R x y -> S x y) -> StronglySorted R l -> StronglySorted S l.
Proof.
  intros HRS. induction l as [|x l IH]; intros Hs; [constructor|].
  apply StronglySorted_inv in Hs as [Hs Hf]. constructor; [apply IH, Hs|].
  apply List.Forall_forall. intros y Hy. apply HRS.
  eapply List.Forall_forall in Hf; eauto.
Qed.

Lemma pair_lt_schema_le (x y : table_row) : pair_lt x y -> schema_le x y.
Proof.
  unfold schema_le. rewrite pair_lt_iff. intros [H|[E _]].
  - apply ltb_leb, H.
  - rewrite E. apply string_leb_refl.
Qed.

Lemma schema_filter_head (k : string) (x : table_row) (l : list table_row) :
  fst x = k ->
  List.filter (fun t => String.eqb (fst t) k) (x :: l) =
  x :: List.filter (fun t => String.eqb (fst t) k) l.
Proof. intros E. simpl. rewrite E, String.eqb_refl. reflexivity. Qed.

Lemma schema_filter_skip (k : string) (x : table_row) (l : list table_row) :
  fst x <> k ->
  List.filter (fun t => String.eqb (fst t) k) (x :: l) =
  List.filter (fun t => String.eqb (fst t) k) l.
Proof. intros E. simpl. apply String.eqb_neq in E. rewrite E. reflexivity. Qed.

(** Two lists ordered by schema with the same rows, in the same order,
    for every schema are equal. *)
Lemma sorted_by_schema_eq (l1 l2 : list table_row) :
  StronglySorted schema_le l1 -> StronglySorted schema_le l2 ->
  (forall k, List.filter (fun t => String.eqb (fst t) k) l1 =
             List.filter (fun t => String.eqb (fst t) k) l2) ->
  l1 = l2.
Proof.
  revert l2. induction l1 as [|x r1 IH]; intros l2 Hs1 Hs2 Hf.
  - destruct l2 as [|y r2]; [reflexivity|].
    specialize (Hf (fst y)). rewrite schema_filter_head in Hf by reflexivity.
    discriminate Hf.
  - destruct l2 as [|y r2].
    + specialize (Hf (fst x)). rewrite schema_filter_head in Hf by reflexivity.
      discriminate Hf.
    + apply StronglySorted_inv in Hs1 as [Hs1 Hf1].
      apply StronglySorted_inv in Hs2 as [Hs2 Hf2].
      destruct (string_dec (fst y) (fst x)) as [Eyx|Nyx].
      * pose proof (Hf (fst x)) as Hx.
        rewrite !schema_filter_head in Hx by auto.
        injection Hx as <- Hx. f_equal.
        apply IH; [exact Hs1|exact Hs2|]. intros k.
        destruct (string_dec (fst x) k) as [E|N].
        -- subst k. exact Hx.
        -- specialize (Hf k). rewrite !schema_filter_skip in Hf by auto. exact Hf.
      * exfalso.
        pose proof (Hf (fst y)) as Hy.
        rewrite schema_filter_skip in Hy by congruence.
        rewrite schema_filter_head in Hy by reflexivity.
        assert (Hyr1 : In y r1).
        { apply (filter_In (fun t => String.eqb (fst t) (fst y))). rewrite Hy. left. reflexivity. }
        pose proof (Hf (fst x)) as Hx.
        rewrite schema_filter_head in Hx by reflexivity.
        rewrite schema_filter_skip in Hx by congruence.
        assert (Hxr2 : In x r2).
        { apply (filter_In (fun t => String.eqb (fst t) (fst x))). rewrite <- Hx. left. reflexivity. }
        eapply List.Forall_forall in Hf1; [|exact Hyr1].
        eapply List.Forall_forall in Hf2; [|exact Hxr2].
        unfold schema_le in Hf1, Hf2. apply Nyx.
        apply String.leb_antisym; assumption.
Qed.

(** The kept tables, in the order of the tables frame. *)
Lemma kept_tables_sorted (cols : list col_row) (ti : table_info_map) :
  StronglySorted pair_lt (fst (_filter_unused_tables (tables_frame cols) ti)).
Proof.
  rewrite filter_unused_tables_eq. simpl. apply strongly_sorted_filter.
  unfold tables_frame, drop_duplicates.
  apply sort_values_sorted, drop_duplicates_from_nodup.
Qed.

Lemma grouped_sorted_id (ts : list table_row) :
  StronglySorted schema_le ts ->
  flat_map (group_rows ts) (group_keys ts) = ts.
Proof.
  intros Hs. apply sorted_by_schema_eq; [|exact Hs|apply groups_stable].
  apply groups_sorted, group_keys_sorted.
Qed.

(** C8 (as corrected): [build_graph] is a function of its inputs, and
    the primary-key rows (a Python set) are only queried for membership,
    so their order cannot change the graph; edges come in foreign-key row
    order; without clustering nodes come in [schema_tables] row order;
    with clustering they come grouped by ascending schema, a reordering
    of the rows that keeps, within each schema, the row order, whatever
    the row order was. So when the rows are ordered by schema, and in
    particular when they are sorted by (schema, table) as
    [_filter_and_process_tables] makes them, both modes emit the nodes
    in row order. *)
Theorem build_graph_emission_order schema_tables columns pks fks indexes
    rowcounts cluster_by_schema show_schema_prefix max_cols :
  let g := build_graph schema_tables columns pks fks indexes rowcounts
             cluster_by_schema show_schema_prefix max_cols in
  let grouped := flat_map (group_rows schema_tables) (group_keys schema_tables) in
  edges g = map fk_edge fks /\
  map n_id (all_nodes g) =
    map node_id (if cluster_by_schema then grouped else schema_tables) /\
  Permutation grouped schema_tables /\
  StronglySorted schema_le grouped /\
  (forall k, List.filter (fun t => String.eqb (fst t) k) grouped =
             List.filter (fun t => String.eqb (fst t) k) schema_tables) /\
  (forall pks', Permutation pks pks' ->
     build_graph schema_tables columns pks' fks indexes rowcounts
       cluster_by_schema show_schema_prefix max_cols = g) /\
  (StronglySorted schema_le schema_tables ->
     map n_id (all_nodes g) = map node_id schema_tables) /\
  (StronglySorted pair_lt schema_tables ->
     map n_id (all_nodes g) = map node_id schema_tables).
Proof.
  intros g grouped.
  assert (Hsorted : StronglySorted schema_le schema_tables ->
            map n_id (all_nodes g) = map node_id schema_tables).
  { intros Hs. unfold g. rewrite build_graph_node_ids.
    destruct cluster_by_schema; [|reflexivity].
    rewrite grouped_sorted_id by exact Hs. reflexivity. }
  split; [unfold g, build_graph; destruct cluster_by_schema; reflexivity|].
  split; [unfold g; rewrite build_graph_node_ids; destruct cluster_by_schema; reflexivity|].
  split.
  { apply groups_permutation; [apply group_keys_nodup|].
    intros t Ht. apply group_keys_In, in_map, Ht. }
  split; [apply groups_sorted, group_keys_sorted|].
  split; [intros k; apply groups_stable|].
  split; [|split; [exact Hsorted|]].
  2: { intros Hs. apply Hsorted.
       apply (strongly_sorted_impl pair_lt); [apply pair_lt_schema_le|exact Hs]. }
  intros pks' Hp. unfold g, build_graph.
  destruct cluster_by_schema; f_equal.
  - apply map_ext. intros k. f_equal. apply map_ext. intros t.
    symmetry. apply table_node_pks_perm, Hp.
  - apply map_ext. intros t. symmetry. apply table_node_pks_perm, Hp.
Qed.

Lemma erd_generation_some (d : erd_frames) (ti : table_info_map) c sp mc g :
  erd_generation d ti c sp mc = Some g ->
  let kept := fst (_filter_unused_tables (tables_frame (d_cols d)) ti) in
  kept <> [] /\
  g = build_graph kept (List.filter (fun x => pair_in kept (c_schema x) (c_table x)) (d_cols d))
        (List.filter (fun r => pair_in kept (p_schema r) (p_table r)) (d_pks d))
        (List.filter (fun r => pair_in kept (f_child_schema r) (f_child_table r)) (d_fks d))
        (List.filter (fun r => pair_in kept (i_schema r) (i_table r)) (d_idx d))
        (List.filter (fun r => pair_in kept (r_schema r) (r_table r)) (d_rc d)) c sp mc.
Proof.
  intros H. cbv zeta. unfold erd_generation, _filter_and_process_tables in H.
  destruct (d_cols d) as [|c0 cs] eqn:Ec; [discriminate|].
  destruct (fst (_filter_unused_tables (tables_frame (c0 :: cs)) ti)) as [|k ks];
    [discriminate|].
  split; [discriminate|]. injection H as Hg. rewrite <- Hg. cbn. rewrite Ec. reflexivity.
Qed.

(** X2: the generated ERD has one node per kept table, named
    [schema.table], in ascending (schema, table) order whether or not the
    nodes are clustered by schema. *)
Theorem erd_generation_node_order (d : erd_frames) (ti : table_info_map)
    (cluster_by_schema show_schema_prefix : bool) (max_cols : nat) (g : digraph) :
  erd_generation d ti cluster_by_schema show_schema_prefix max_cols = Some g ->
  let kept := fst (_filter_unused_tables (tables_frame (d_cols d)) ti) in
  map n_id (all_nodes g) = map node_id kept /\ StronglySorted pair_lt kept.
Proof.
  intros H kept. apply erd_generation_some in H as [_ ->]. fold kept.
  split; [|apply kept_tables_sorted].
  rewrite build_graph_node_ids. destruct cluster_by_schema; [|reflexivity].
  rewrite grouped_sorted_id; [reflexivity|].
  eapply strongly_sorted_impl; [apply pair_lt_schema_le|apply kept_tables_sorted].
Qed.

(** X3: the edges of the generated ERD are those of the foreign-key rows
    whose child table is kept, in frame order, so the tail of every edge
    is a node of the graph (the parent table may have been excluded). *)
Theorem erd_generation_edge_tails (d : erd_frames) (ti : table_info_map)
    (cluster_by_schema show_schema_prefix : bool) (max_cols : nat) (g : digraph) :
  erd_generation d ti cluster_by_schema show_schema_prefix max_cols = Some g ->
  let kept := fst (_filter_unused_tables (tables_frame (d_cols d)) ti) in
  edges g = map fk_edge
              (List.filter (fun r => pair_in kept (f_child_schema r) (f_child_table r))
                 (d_fks d)) /\
  (forall e, In e (edges g) -> exists n, In n (all_nodes g) /\ n_id n = e_tail e).
Proof.
  intros H kept. apply erd_generation_some in H as [_ ->]. fold kept.
  assert (Hedges : forall cs ps fs is rs,
            edges (build_graph kept cs ps fs is rs cluster_by_schema show_schema_prefix
                     max_cols) = map fk_edge fs)
    by (intros; unfold build_graph; destruct cluster_by_schema; reflexivity).
  rewrite Hedges. split; [reflexivity|].
  intros e He. apply in_map_iff in He as [r [<- Hr]].
  apply filter_In in Hr as [_ Hr]. apply pair_in_iff in Hr.
  assert (Hin : In (node_id (f_child_schema r, f_child_table r))
                  (map n_id (all_nodes (build_graph kept
                     (List.filter (fun x => pair_in kept (c_schema x) (c_table x)) (d_cols d))
                     (List.filter (fun r0 => pair_in kept (p_schema r0) (p_table r0)) (d_pks d))
                     (List.filter (fun r0 => pair_in kept (f_child_schema r0) (f_child_table r0))
                        (d_fks d))
                     (List.filter (fun r0 => pair_in kept (i_schema r0) (i_table r0)) (d_idx d))
                     (List.filter (fun r0 => pair_in kept (r_schema r0) (r_table r0)) (d_rc d))
                     cluster_by_schema show_schema_prefix max_cols)))).
  { eapply Permutation_in; [symmetry; apply build_graph_nodes_perm|].
    apply in_map, Hr. }
  apply in_map_iff in Hin as [n [Hn Hin]]. exists n. split; [exact Hin|].
  rewrite Hn. reflexivity.
Qed.

(** X4: [_handle_erd_generation] builds no graph exactly when no table of
    the columns frame is kept (in particular when that frame is empty). *)
Theorem erd_generation_none_iff (d : erd_frames) (ti : table_info_map)
    (cluster_by_schema show_schema_prefix : bool) (max_cols : nat) :
  erd_generation d ti cluster_by_schema show_schema_prefix max_cols = None <->
  fst (_filter_unused_tables (tables_frame (d_cols d)) ti) = [].
Proof.
  unfold erd_generation, _filter_and_process_tables.
  destruct (d_cols d) as [|c0 cs]; [split; reflexivity|].
  destruct (fst (_filter_unused_tables (tables_frame (c0 :: cs)) ti)); simpl;
    split; congruence.
Qed.

Lemma filter_filter_implied {A} (f g : A -> bool) (l : list A) :
  (forall x, In x l -> f x = true -> g x = true) ->
  List.filter f (List.filter g l) = List.filter f l.
Proof.
  induction l as [|x l IH]; simpl; intros H; [reflexivity|].
  destruct (g x) eqn:Eg; simpl.
  - destruct (f x); [f_equal|]; apply IH; auto.
  - destruct (f x) eqn:Ef.
    + rewrite (H x (or_introl eq_refl) Ef) in Eg. discriminate.
    + apply IH. auto.
Qed.

Lemma existsb_filter_implied {A} (f g : A -> bool) (l : list A) :
  (forall x, f x = true -> g x = true) ->
  existsb f (List.filter g l) = existsb f l.
Proof.
  induction l as [|x l IH]; simpl; intros H; [reflexivity|].
  destruct (g x) eqn:Eg; simpl; rewrite IH by exact H; [reflexivity|].
  destruct (f x) eqn:Ef; [|reflexivity].
  rewrite (H x Ef) in Eg. discriminate.
Qed.

Lemma rc_lookup_filter_implied (g : rc_row -> bool) (rcs : list rc_row) (s t : string) :
  (forall r, String.eqb (r_schema r) s && String.eqb (r_table r) t = true -> g r = true) ->
  rc_lookup (List.filter g rcs) s t = rc_lookup rcs s t.
Proof.
  unfold rc_lookup. intros H. generalize (@None Z).
  induction rcs as [|r rcs IH]; intros acc; simpl; [reflexivity|].
  destruct (g r) eqn:Eg; simpl; [apply IH|].
  destruct (String.eqb (r_schema r) s && String.eqb (r_table r) t) eqn:E.
  - rewrite (H r E) in Eg. discriminate.
  - apply IH.
Qed.

Lemma match_pair_in (ts : list table_row) (s t a b : string) :
  In (s, t) ts -> String.eqb a s && String.eqb b t = true -> pair_in ts a b = true.
Proof.
  intros Hin E. apply andb_true_iff in E as [E1 E2].
  apply String.eqb_eq in E1, E2. subst. apply pair_in_iff, Hin.
Qed.

Lemma column_rows_keys_filtered (ts : list table_row) (s t : string)
    (cols : list col_row) (pks : list pk_row) (fks : list fk_row) total displayed mc :
  In (s, t) ts ->
  column_rows cols s t
    (List.filter (fun r => pair_in ts (p_schema r) (p_table r)) pks)
    (List.filter (fun r => pair_in ts (f_child_schema r) (f_child_table r)) fks)
    total displayed mc =
  column_rows cols s t pks fks total displayed mc.
Proof.
  intros Hin. revert displayed.
  induction cols as [|c cols IH]; intros displayed; simpl; [reflexivity|].
  destruct (mc <=? displayed)%nat; [reflexivity|].
  rewrite IH. unfold column_line, in_pk_set, in_fk_map.
  rewrite !existsb_filter_implied; [reflexivity| |].
  - intros r Hr. apply andb_true_iff in Hr as [Hr _].
    eapply match_pair_in; eauto.
  - intros r Hr. apply andb_true_iff in Hr as [Hr _].
    eapply match_pair_in; eauto.
Qed.

Lemma table_node_filtered (ts : list table_row) (d : erd_frames) sp mc (t : table_row) :
  In t ts ->
  let fd := _filter_related_data d ts in
  table_node (d_cols fd) (d_pks fd) (d_fks fd) (d_idx fd) (d_rc fd) sp mc t =
  table_node (d_cols d) (d_pks d) (d_fks d) (d_idx d) (d_rc d) sp mc t.
Proof.
  destruct t as [s tn]. intros Hin. simpl. unfold table_node.
  rewrite !filter_filter_implied
    by (intros x _ Hx; eapply match_pair_in; eauto).
  rewrite rc_lookup_filter_implied by (intros r Hr; eapply match_pair_in; eauto).
  unfold build_table_label. rewrite column_rows_keys_filtered by exact Hin.
  reflexivity.
Qed.

(** X5: [_filter_related_data] changes only the edges of the graph built
    from its result: with the kept tables as [schema_tables], the nodes,
    their labels (columns, key markers, indexes, row counts) and the
    clusters are the same as with the unfiltered frames. *)
Theorem filter_related_data_same_nodes (ts : list table_row) (d : erd_frames)
    (cluster_by_schema show_schema_prefix : bool) (max_cols : nat) :
  let fd := _filter_related_data d ts in
  let g1 := build_graph ts (d_cols fd) (d_pks fd) (d_fks fd) (d_idx fd) (d_rc fd)
              cluster_by_schema show_schema_prefix max_cols in
  let g2 := build_graph ts (d_cols d) (d_pks d) (d_fks d) (d_idx d) (d_rc d)
              cluster_by_schema show_schema_prefix max_cols in
  top_nodes g1 = top_nodes g2 /\ clusters g1 = clusters g2 /\
  edges g1 = map fk_edge (List.filter
               (fun r => pair_in ts (f_child_schema r) (f_child_table r)) (d_fks d)).
Proof.
  intros fd g1 g2. subst g1 g2.
  unfold build_graph. destruct cluster_by_schema; simpl.
  - split; [reflexivity|]. split; [|reflexivity].
    apply map_ext. intros k. f_equal. apply map_ext_in. intros t Ht.
    apply filter_In in Ht as [Ht _]. apply (table_node_filtered ts d), Ht.
  - split; [|split; reflexivity].
    apply map_ext_in. intros t Ht. apply (table_node_filtered ts d), Ht.
Qed.

(* ------------------------------------------------------------------ *)
(** ** ERD pipeline: table info from the schema-metadata cache *)

Lemma string_app_inv_l (p a b : string) : p ++ a = p ++ b -> a = b.
Proof.
  induction p as [|c p IH]; [tauto|].
  intros H. injection H. exact IH.
Qed.

Lemma cache_key_inj (env a b : string) : cache_key env a = cache_key env b -> a = b.
Proof. unfold cache_key. intros H. apply string_app_inv_l in H. injection H. auto. Qed.

Lemma fold_insert_other (s s' t : string) (l : list (string * table_meta))
    (ti : table_info_map) :
  s' <> s ->
  fold_left (fun acc (kv : string * table_meta) => <[(s, kv.1) := kv.2]> acc) l ti
    !! (s', t) = ti !! (s', t).
Proof.
  intros Hs. revert ti. induction l as [|[k v] l IH]; intros ti; simpl; [reflexivity|].
  rewrite IH. rewrite lookup_insert_ne; [reflexivity|]. congruence.
Qed.

Lemma fold_insert_absent (s t : string) (l : list (string * table_meta))
    (ti : table_info_map) :
  ~ In t (map fst l) ->
  fold_left (fun acc (kv : string * table_meta) => <[(s, kv.1) := kv.2]> acc) l ti
    !! (s, t) = ti !! (s, t).
Proof.
  revert ti. induction l as [|[k v] l IH]; intros ti Hn; simpl; [reflexivity|].
  simpl in Hn. rewrite IH by tauto. rewrite lookup_insert_ne; [reflexivity|].
  intros E. injection E as ->. tauto.
Qed.

Lemma fold_insert_present (s t : string) (v : table_meta) (l : list (string * table_meta))
    (ti : table_info_map) :
  List.NoDup (map fst l) -> In (t, v) l ->
  fold_left (fun acc (kv : string * table_meta) => <[(s, kv.1) := kv.2]> acc) l ti
    !! (s, t) = Some v.
Proof.
  revert ti. induction l as [|[k w] l IH]; intros ti Hnd Hin; simpl; [destruct Hin|].
  simpl in Hnd. apply NoDup_cons_iff in Hnd as [Hk Hnd].
  destruct Hin as [E|Hin].
  - injection E as -> ->. rewrite fold_insert_absent by exact Hk.
    apply lookup_insert_eq.
  - apply IH; assumption.
Qed.

Lemma add_table_info_lookup (schema s t : string) (sd : snapshot) (ti : table_info_map) :
  add_table_info schema sd ti !! (s, t) =
  if String.eqb s schema then
    match sn_table_info sd !! t with Some v => Some v | None => ti !! (s, t) end
  else ti !! (s, t).
Proof.
  unfold add_table_info. destruct (String.eqb_spec s schema) as [->|Hne].
  - destruct (sn_table_info sd !! t) as [v|] eqn:E.
    + apply fold_insert_present.
      * apply NoDup_ListNoDup. apply NoDup_fst_map_to_list.
      * apply list_elem_of_In, elem_of_map_to_list, E.
    + apply fold_insert_absent. intros Hin. apply in_map_iff in Hin as [[k v] [Hk Hin]].
      simpl in Hk. subst k. apply list_elem_of_In, elem_of_map_to_list in Hin. congruence.
  - apply fold_insert_other, Hne.
Qed.

(** The cache after one step: the cached snapshot, or the loaded one
    inserted at the schema's key. *)
Lemma collect_step_cache (env : string) (loader : string -> db_env) (schema : string)
    (cache : schema_cache) :
  let step := match cache !! cache_key env schema with
              | Some sd => (sd, cache)
              | None => let sd := load_schema_metadata (loader schema) in
                        (sd, <[cache_key env schema := sd]> cache)
              end in
  step.2 !! cache_key env schema = Some step.1 /\
  (forall k v, cache !! k = Some v -> step.2 !! k = Some v) /\
  (forall k, k <> cache_key env schema -> step.2 !! k = cache !! k) /\
  (cache !! cache_key env schema = None ->
     step.1 = load_schema_metadata (loader schema)).
Proof.
  simpl. destruct (cache !! cache_key env schema) as [sd|] eqn:E; simpl.
  - split; [exact E|]. split; [auto|]. split; [auto|discriminate].
  - split; [apply lookup_insert_eq|]. split; [|split].
    + intros k v Hk. rewrite lookup_insert_ne; [exact Hk|]. congruence.
    + intros k Hk. apply lookup_insert_ne. congruence.
    + reflexivity.
Qed.

Lemma collect_loop_cache (env : string) (loader : string -> db_env) (sels : list string)
    (cache : schema_cache) (ti : table_info_map) :
  let r := collect_table_info_loop env loader sels cache ti in
  (forall k v, cache !! k = Some v -> r.2 !! k = Some v) /\
  (forall s, In s sels -> is_Some (r.2 !! cache_key env s)) /\
  (forall k, (forall s, In s sels -> k <> cache_key env s) -> r.2 !! k = cache !! k).
Proof.
  revert cache ti. induction sels as [|s0 rest IH]; intros cache ti; simpl.
  - split; [auto|]. split; [tauto|auto].
  - pose proof (collect_step_cache env loader s0 cache) as [H1 [H2 [H3 _]]].
    simpl in H1, H2, H3.
    destruct (match cache !! cache_key env s0 with
              | Some sd => (sd, cache)
              | None => let sd := load_schema_metadata (loader s0) in
                        (sd, <[cache_key env s0 := sd]> cache)
              end) as [sd cache'] eqn:Estep.
    simpl in H1, H2, H3.
    destruct (IH cache' (add_table_info s0 sd ti)) as [I1 [I2 I3]].
    split; [|split].
    + intros k v Hk. apply I1, H2, Hk.
    + intros s [<-|Hs]; [|apply I2, Hs].
      eexists. apply I1, H1.
    + intros k Hk. rewrite I3 by (intros s Hs; apply Hk; right; exact Hs).
      apply H3. apply Hk. left. reflexivity.
Qed.


Lemma collect_loop_info (env : string) (loader : string -> db_env) (sels : list string)
    (done_ : list string) (cache : schema_cache) (ti : table_info_map) :
  info_inv env done_ ti cache ->
  let r := collect_table_info_loop env loader sels cache ti in
  info_inv env (done_ ++ sels) r.1 r.2.
Proof.
  revert done_ cache ti. induction sels as [|s0 rest IH]; intros done_ cache ti [Hti Hdone].
  - simpl. rewrite app_nil_r. split; assumption.
  - cbn [collect_table_info_loop].
    pose proof (collect_step_cache env loader s0 cache) as [H1 [H2 [H3 _]]].
    simpl in H1, H2, H3.
    destruct (match cache !! cache_key env s0 with
              | Some sd => (sd, cache)
              | None => let sd := load_schema_metadata (loader s0) in
                        (sd, <[cache_key env s0 := sd]> cache)
              end) as [sd cache'] eqn:Estep.
    simpl in H1, H2, H3.
    replace (done_ ++ s0 :: rest)%list with ((done_ ++ [s0]) ++ rest)%list
      by (rewrite <- app_assoc; reflexivity).
    apply IH. split.
    + intros s t. rewrite add_table_info_lookup, Hti.
      destruct (String.eqb_spec s s0) as [->|Hne].
      * destruct (in_dec string_dec s0 (done_ ++ [s0])) as [_|Hn];
          [|exfalso; apply Hn, in_or_app; right; left; reflexivity].
        rewrite H1. simpl.
        destruct (sn_table_info sd !! t) as [v|] eqn:Ev; [reflexivity|].
        destruct (in_dec string_dec s0 done_) as [Hd|_]; [|reflexivity].
        destruct (Hdone s0 Hd) as [sd' Hsd'].
        rewrite Hsd'. simpl.
        assert (sd' = sd) by (apply H2 in Hsd'; congruence). subst sd'. exact Ev.
      * destruct (in_dec string_dec s done_) as [Hd|Hd];
          destruct (in_dec string_dec s (done_ ++ [s0])) as [Hd'|Hd'].
        -- destruct (Hdone s Hd) as [sd' Hsd']. rewrite Hsd', (H2 _ _ Hsd'). reflexivity.
        -- exfalso. apply Hd', in_or_app. left. exact Hd.
        -- exfalso. apply in_app_or in Hd' as [Hd'|[E|[]]]; [tauto|congruence].
        -- reflexivity.
    + intros s Hs. apply in_app_or in Hs as [Hs|[<-|[]]].
      * destruct (Hdone s Hs) as [v Hv]. eexists. apply H2, Hv.
      * eexists. exact H1.
Qed.

(** X6: after [_collect_table_info], the entry of (schema, table) is the
    table's entry in the [table_info] of the snapshot that the cache
    holds for that schema, for every selected schema; no other schema
    has an entry. *)
Theorem collect_table_info_lookup (env : string) (loader : string -> db_env)
    (sels : list string) (cache : schema_cache) (s t : string) :
  let r := _collect_table_info env loader sels cache in
  r.1 !! (s, t) =
  if in_dec string_dec s sels
  then (r.2 !! cache_key env s) ≫= (fun sd => sn_table_info sd !! t)
  else None.
Proof.
  intros r. unfold r, _collect_table_info.
  destruct (collect_loop_info env loader sels [] cache ∅) as [H _].
  - split; [intros; simpl; apply lookup_empty|intros ? []].
  - apply H.
Qed.

(** X7: [_collect_table_info] never replaces a cached snapshot and never
    loads a schema whose snapshot is cached: the entries already cached
    are kept, each selected schema is cached afterwards, no other key is
    touched, and the result does not depend on the database of a schema
    that was cached. *)
Theorem collect_table_info_cache (env : string) (loader loader' : string -> db_env)
    (sels : list string) (cache : schema_cache) :
  let r := _collect_table_info env loader sels cache in
  (forall k v, cache !! k = Some v -> r.2 !! k = Some v) /\
  (forall s, In s sels -> is_Some (r.2 !! cache_key env s)) /\
  (forall k, (forall s, In s sels -> k <> cache_key env s) -> r.2 !! k = cache !! k) /\
  ((forall s, In s sels -> cache !! cache_key env s = None -> loader' s = loader s) ->
   _collect_table_info env loader' sels cache = r).
Proof.
  cbv zeta. unfold _collect_table_info.
  destruct (collect_loop_cache env loader sels cache ∅) as [H1 [H2 H3]].
  split; [exact H1|]. split; [exact H2|]. split; [exact H3|].
  intros Hl. clear H1 H2 H3. generalize (∅ : table_info_map) as ti. revert cache Hl.
  induction sels as [|s0 rest IH]; intros cache Hl ti; simpl; [reflexivity|].
  destruct (cache !! cache_key env s0) as [sd|] eqn:E.
  - apply IH. intros s Hs. apply Hl. right. exact Hs.
  - rewrite (Hl s0 (or_introl eq_refl) E). apply IH.
    intros s Hs Hn. apply Hl; [right; exact Hs|].
    destruct (string_dec s s0) as [->|Hne]; [exact E|].
    rewrite lookup_insert_ne in Hn; [exact Hn|].
    intros Hk. apply Hne, (cache_key_inj env). congruence.
Qed.

Lemma load_body_raises_empty (env : db_env) :
  load_raises env = true -> load_schema_metadata env = empty_snapshot.
Proof.
  unfold load_raises, load_schema_metadata, load_body.
  destruct (connect_ok env); simpl; [|reflexivity].
  destruct (q_tables env) as [[|r rs]|]; simpl; try reflexivity.
  - destruct (q_show_tables env); [discriminate|reflexivity].
  - destruct (q_columns env); [discriminate|reflexivity].
Qed.

Lemma collect_loop_loaded (env : string) (loader : string -> db_env) (sels : list string)
    (cache : schema_cache) (ti : table_info_map) (s : string) :
  cache !! cache_key env s = None -> In s sels ->
  (collect_table_info_loop env loader sels cache ti).2 !! cache_key env s =
  Some (load_schema_metadata (loader s)).
Proof.
  revert cache ti. induction sels as [|s0 rest IH]; intros cache ti Hc Hin; [destruct Hin|].
  cbn [collect_table_info_loop].
  pose proof (collect_step_cache env loader s0 cache) as [H1 [H2 [H3 H4]]].
  simpl in H1, H2, H3, H4.
  destruct (match cache !! cache_key env s0 with
            | Some sd => (sd, cache)
            | None => let sd := load_schema_metadata (loader s0) in
                      (sd, <[cache_key env s0 := sd]> cache)
            end) as [sd cache'] eqn:Estep.
  simpl in H1, H2, H3, H4.
  destruct (string_dec s0 s) as [->|Hne].
  - apply (collect_loop_cache env loader rest cache' (add_table_info s sd ti)).
    rewrite H1. f_equal. apply H4, Hc.
  - destruct Hin as [E|Hin]; [contradiction|].
    apply IH; [|exact Hin].
    rewrite H3; [exact Hc|]. intros Hk. apply Hne, (cache_key_inj env). congruence.
Qed.

(** X8: when the metadata of a selected schema is not cached and its
    load fails, [_filter_unused_tables] excludes every non-enum table of
    that schema with the reason for missing metadata, and the empty
    snapshot is cached for the schema, so later runs do not load it
    again. *)
Theorem failed_load_excludes_schema (env : string) (loader : string -> db_env)
    (tables : list table_row) (sels : list string) (cache : schema_cache)
    (s t : string) :
  cache !! cache_key env s = None -> load_raises (loader s) = true -> In s sels ->
  In (s, t) tables -> _is_enum_table t = false ->
  let '(kept, excl, cache') := filter_unused_tables_collect env loader tables sels cache in
  ~ In (s, t) kept /\
  In {| ex_table := s ++ "." ++ t;
        ex_reason := "No UPDATE_TIME metadata (non-enum table)" |} excl /\
  cache' !! cache_key env s = Some empty_snapshot.
Proof.
  intros Hc Hl Hs Ht He. unfold filter_unused_tables_collect.
  pose proof (collect_table_info_lookup env loader sels cache s t) as Hlk.
  pose proof (collect_loop_loaded env loader sels cache ∅ s Hc Hs) as Hld.
  fold (_collect_table_info env loader sels cache) in Hld.
  rewrite load_body_raises_empty in Hld by exact Hl.
  destruct (_collect_table_info env loader sels cache) as [ti cache'].
  simpl in Hlk, Hld. rewrite Hld in Hlk. simpl in Hlk.
  destruct (in_dec string_dec s sels) as [_|Hn]; [|contradiction].
  rewrite lookup_empty in Hlk.
  assert (Hk : spec_keeps ti (s, t) = false).
  { unfold spec_keeps, lookup_last_update. simpl. rewrite Hlk, He. reflexivity. }
  rewrite filter_unused_tables_eq. simpl. split; [|split; [|exact Hld]].
  - intros Hin. apply filter_In in Hin as [_ Hin]. congruence.
  - apply in_map_iff. exists (s, t). split.
    + unfold exclusion_of, lookup_last_update. simpl. rewrite Hlk. reflexivity.
    + apply filter_In. split; [exact Ht|]. rewrite Hk. reflexivity.
Qed.

(* ------------------------------------------------------------------ *)
(** ** Table panels: the column rows *)

Lemma column_rows_shape (cols : list col_row) (schema table : string)
    (pks : list pk_row) (fks : list fk_row) (total displayed max_cols : nat) :
  column_rows cols schema table pks fks total displayed max_cols =
  (map (column_line pks fks schema table)
       (firstn (max_cols - displayed) cols) ++
   (if (max_cols - displayed <? length cols)%nat
    then [MoreCols (total - max_cols)] else []))%list.
Proof.
  revert displayed. induction cols as [|r cols IH]; intros displayed.
  - simpl. rewrite firstn_nil. destruct (max_cols - displayed); reflexivity.
  - cbn [column_rows]. destruct (max_cols <=? displayed)%nat eqn:E.
    + apply Nat.leb_le in E. replace (max_cols - displayed)%nat with 0%nat by lia.
      reflexivity.
    + apply Nat.leb_gt in E. rewrite IH.
      replace (max_cols - displayed)%nat with (S (max_cols - S displayed)) by lia.
      reflexivity.
Qed.

(** X9: a table panel lists its first [max_cols] columns, in frame
    order, each as [_build_column_rows] renders it (key markers, the
    detail of [_format_column_detail], NOT NULL when the upper-cased
    nullable flag is [NO]), followed by a "more columns" marker that
    counts the hidden columns when the table has more than [max_cols]
    columns, and by no marker otherwise. *)
Theorem build_table_label_columns (schema table : string) (cols : list col_row)
    (pks : list pk_row) (fks : list fk_row) (idx : list idx_row)
    (row_count : option Z) (show_schema : bool) (max_cols : nat) :
  lb_columns (build_table_label schema table cols pks fks idx row_count show_schema max_cols) =
  (map (column_line pks fks schema table)
       (firstn max_cols cols) ++
   (if (max_cols <? length cols)%nat
    then [MoreCols (length cols - max_cols)] else []))%list.
Proof.
  simpl. rewrite column_rows_shape, Nat.sub_0_r. reflexivity.
Qed.

(* ------------------------------------------------------------------ *)
(** ** Reference scanner: reported lines and totals *)

Lemma split_nl_length_pos (s : string) : (1 <= length (split_nl s))%nat.
Proof.
  induction s as [|c s IH]; simpl; [lia|].
  destruct (Ascii.eqb c nl); simpl; [lia|].
  destruct (split_nl s); simpl in *; lia.
Qed.

Lemma count_nl_lines (n : nat) (s : string) :
  (count_nl n s + 1 <= length (split_nl s))%nat.
Proof.
  revert n. induction s as [|c s IH]; intros n; destruct n as [|n]; simpl;
    try apply split_nl_length_pos; try lia.
  - pose proof (split_nl_length_pos (String c s)) as H. simpl in H. exact H.
  - specialize (IH n). destruct (Ascii.eqb c nl); simpl; [lia|].
    destruct (split_nl s); simpl in *; lia.
Qed.

Section Scanner.
Context `{re_module}.

Lemma pattern_matches_none (patterns : list pattern) (content : string) :
  pattern_matches patterns content = None <-> patterns_compile patterns = false.
Proof.
  induction patterns as [|pt rest IH]; cbn [pattern_matches patterns_compile forallb].
  - split; discriminate.
  - unfold pattern_spans.
    destruct (pat_re pt) as [r|].
    + destruct (pattern_matches rest content); simpl; rewrite <- IH; split;
        congruence.
    + destruct (re_finditer_ext (pat_text pt)) as [f|]; simpl; [|split; reflexivity].
      destruct (pattern_matches rest content); simpl; rewrite <- IH; split;
        congruence.
Qed.

(** X10: when the scan of a content does not raise, every match it
    records has a line number between 1 and the number of lines of the
    content, its content is that line stripped, and its pattern is the
    text of one of the patterns. *)
Theorem pattern_matches_lines (patterns : list pattern) (content : string)
    (ms : list match_rec) (m : match_rec) :
  pattern_matches patterns content = Some ms -> In m ms ->
  (1 <= m_line m <= length (split_nl content))%nat /\
  m_content m = strip (nth (m_line m - 1) (split_nl content) "") /\
  In (m_pattern m) (map pat_text patterns).
Proof.
  revert ms. induction patterns as [|pt rest IH]; intros ms Hpm Hm;
    cbn [pattern_matches] in Hpm.
  - injection Hpm as <-. destruct Hm.
  - destruct (pattern_spans pt content) as [spans|]; [|discriminate].
    destruct (pattern_matches rest content) as [ms'|] eqn:E; [|discriminate].
    simpl in Hpm. injection Hpm as <-. apply in_app_or in Hm as [Hm|Hm].
    + apply in_map_iff in Hm as [[b e] [<- _]]. unfold match_of. simpl.
      split; [pose proof (count_nl_lines b content); lia|].
      split; [reflexivity|]. left. reflexivity.
    + destruct (IH ms' eq_refl Hm) as [H1 [H2 H3]].
      split; [exact H1|]. split; [exact H2|]. right. exact H3.
Qed.

Lemma scan_files_eq (patterns : list pattern) (exts : list string) (fs : list src_file)
    (acc : impact_result) :
  scan_files patterns exts fs acc =
  {| files := (files acc ++ flat_map (file_entry patterns exts) fs)%list;
     total_references := total_references acc +
       list_sum (map fr_count (flat_map (file_entry patterns exts) fs)) |}.
Proof.
  revert acc. induction fs as [|f fs IH]; intros acc; simpl.
  - destruct acc; simpl. rewrite app_nil_r, Nat.add_0_r. reflexivity.
  - rewrite IH. unfold file_entry.
    destruct (should_scan exts (file_name f)); simpl; [|reflexivity].
    destruct (file_content f) as [content|]; simpl; [|reflexivity].
    destruct (pattern_matches patterns content) as [[|m ms]|]; simpl;
      [reflexivity| |reflexivity].
    rewrite <- app_assoc. f_equal. lia.
Qed.

(** X11: [analyze_table_impact_local] lists, in walk order, exactly the
    scanned and readable files whose scan finds at least one match and
    does not raise, each with all its matches and their number (at least
    one); the total is the sum of the per-file counts. *)
Theorem analyze_table_impact_local_files (fs : list src_file) (table_name : string)
    (exts : list string) :
  let r := analyze_table_impact_local fs table_name exts in
  files r = flat_map (file_entry (analyzer_table_patterns table_name) exts) fs /\
  total_references r = list_sum (map fr_count (files r)) /\
  (forall fr, In fr (files r) ->
     fr_count fr = length (fr_matches fr) /\ (1 <= fr_count fr)%nat /\
     exists f content, In f fs /\ file_name f = fr_path fr /\
       should_scan exts (file_name f) = true /\ file_content f = Some content /\
       pattern_matches (analyzer_table_patterns table_name) content = Some (fr_matches fr)).
Proof.
  intros r. unfold r, analyze_table_impact_local. rewrite scan_files_eq. simpl.
  split; [reflexivity|]. split; [reflexivity|].
  intros fr Hfr. apply in_flat_map in Hfr as [f [Hf Hfr]].
  unfold file_entry in Hfr.
  destruct (should_scan exts (file_name f)) eqn:Es; [|destruct Hfr].
  destruct (file_content f) as [content|] eqn:Ec; [|destruct Hfr].
  destruct (pattern_matches (analyzer_table_patterns table_name) content)
    as [[|m ms]|] eqn:Em; [destruct Hfr| |destruct Hfr].
  destruct Hfr as [<-|[]]. simpl. split; [reflexivity|]. split; [lia|].
  exists f, content. repeat split; auto.
Qed.

Lemma scan_files_not_compiling (patterns : list pattern) (exts : list string)
    (fs : list src_file) (acc : impact_result) :
  patterns_compile patterns = false -> scan_files patterns exts fs acc = acc.
Proof.
  intros Hc. revert acc. induction fs as [|f fs IH]; intros acc; simpl; [reflexivity|].
  rewrite IH. destruct (should_scan exts (file_name f)); [|reflexivity].
  destruct (file_content f) as [content|]; [|reflexivity].
  apply (pattern_matches_none patterns content) in Hc. rewrite Hc. reflexivity.
Qed.

Lemma scan_api_files_compiling (patterns : list pattern) (exts : list string)
    (fs : list api_file) (acc : impact_result) :
  patterns_compile patterns = true ->
  scan_api_files patterns exts fs acc = Ok (scan_files patterns exts (as_src_files fs) acc).
Proof.
  intros Hc. revert acc. induction fs as [|f fs IH]; intros acc; simpl; [reflexivity|].
  destruct (should_scan exts (af_path f)); [|apply IH].
  destruct (pattern_matches patterns (af_content f)) as [[|m ms]|] eqn:E.
  - apply IH.
  - apply IH.
  - apply pattern_matches_none in E. congruence.
Qed.

Lemma scan_api_files_not_compiling (patterns : list pattern) (exts : list string)
    (fs : list api_file) (acc : impact_result) :
  patterns_compile patterns = false ->
  scan_api_files patterns exts fs acc =
  if existsb (fun f => should_scan exts (af_path f)) fs then Raised else Ok acc.
Proof.
  intros Hc. induction fs as [|f fs IH]; simpl; [reflexivity|].
  destruct (should_scan exts (af_path f)); simpl; [|exact IH].
  apply (pattern_matches_none patterns (af_content f)) in Hc. rewrite Hc. reflexivity.
Qed.

(** X12: on the same files, [analyze_table_impact_api] returns what
    [analyze_table_impact_local] returns when every pattern compiles
    (always the case for a name [re] reads literally); when one does not,
    the local scan skips every file and reports nothing, while the API
    scan raises as soon as a file is scanned (and reports nothing when
    none is). *)
Theorem analyze_table_impact_api_local (repo_files : list api_file) (table_name : string)
    (exts : list string) :
  (patterns_compile (analyzer_table_patterns table_name) = true ->
   analyze_table_impact_api repo_files table_name exts =
   Ok (analyze_table_impact_local (as_src_files repo_files) table_name exts)) /\
  (patterns_compile (analyzer_table_patterns table_name) = false ->
   analyze_table_impact_local (as_src_files repo_files) table_name exts = empty_impact /\
   analyze_table_impact_api repo_files table_name exts =
   if existsb (fun f => should_scan exts (af_path f)) repo_files
   then Raised else Ok empty_impact) /\
  (re_literal_name table_name = true ->
   patterns_compile (analyzer_table_patterns table_name) = true).
Proof.
  unfold analyze_table_impact_api, analyze_table_impact_local.
  split; [|split].
  - intros Hc. apply scan_api_files_compiling, Hc.
  - intros Hc. split; [apply scan_files_not_compiling, Hc|].
    apply scan_api_files_not_compiling, Hc.
  - intros Hl. unfold analyzer_table_patterns, table_patterns, compiled_for.
    rewrite Hl. reflexivity.
Qed.

End Scanner.

Lemma string_append_assoc (a b c : string) : a ++ (b ++ c) = (a ++ b) ++ c.
Proof.
  induction a as [|x a IH]; [reflexivity|].
  change (String x (a ++ (b ++ c)) = String x ((a ++ b) ++ c)). rewrite IH. reflexivity.
Qed.

Lemma api_code_content_eq (exts : list string) (fs : list api_file) (acc : string) :
  api_code_content exts fs acc = acc ++ collect_code_content exts (as_src_files fs).
Proof.
  revert acc. induction fs as [|f fs IH]; intros acc; simpl.
  - symmetry. apply append_empty_r.
  - rewrite IH. destruct (should_scan exts (af_path f)).
    + rewrite <- string_append_assoc. reflexivity.
    + reflexivity.
Qed.

(** X13: on the same files, [find_unused_objects_api] reports the same
    unused tables and columns, and the same totals, as the walk-based
    [find_unused_objects]. *)
Theorem find_unused_objects_api_local (repo_files : list api_file)
    (all_tables all_columns exts : list string) :
  find_unused_objects_api repo_files all_tables all_columns exts =
  find_unused_objects (as_src_files repo_files) all_tables all_columns exts.
Proof.
  unfold find_unused_objects_api, find_unused_objects, _identify_unused_objects.
  rewrite api_code_content_eq. reflexivity.
Qed.

(* ------------------------------------------------------------------ *)
(** ** Files fetched through the Git APIs *)

Lemma in_firstn_in {A} (n : nat) (l : list A) (x : A) : In x (firstn n l) -> In x l.
Proof.
  revert l. induction n as [|n IH]; intros [|y l]; simpl; try tauto.
  intros [->|H]; [left; reflexivity|right; apply IH, H].
Qed.

Lemma substring_0_length (n : nat) (s : string) :
  String.length (substring 0 n s) = Nat.min n (String.length s).
Proof.
  revert n. induction s as [|c s IH]; intros [|n]; simpl; try reflexivity.
  rewrite IH. reflexivity.
Qed.

Lemma substring_0_prefix (n : nat) (s : string) : String.prefix (substring 0 n s) s = true.
Proof.
  revert n. induction s as [|c s IH]; intros [|n]; simpl; try reflexivity.
  destruct (ascii_dec c c) as [_|Hn]; [apply IH|contradiction].
Qed.

Lemma fetch_files_spec (fetch : string -> option string) (limit : nat) (paths : list string) :
  (length (fetch_files fetch limit paths) <= length paths)%nat /\
  forall f, In f (fetch_files fetch limit paths) ->
    In (ff_path f) paths /\
    exists content, fetch (ff_path f) = Some content /\ content <> "" /\
      ff_content f = substring 0 limit content /\
      ff_size f = String.length content.
Proof.
  induction paths as [|p ps [IHl IH]]; simpl; [split; [lia|tauto]|].
  destruct (fetch p) as [content|] eqn:Ef.
  - destruct (String.eqb_spec content "") as [->|Hne].
    + split; [lia|]. intros f Hf. destruct (IH f Hf) as [Hin Hc]. split; [right|]; auto.
    + simpl. split; [lia|]. intros f [<-|Hf].
      * simpl. split; [left; reflexivity|]. exists content. auto.
      * destruct (IH f Hf) as [Hin Hc]. split; [right|]; auto.
  - split; [lia|]. intros f Hf. destruct (IH f Hf) as [Hin Hc]. split; [right|]; auto.
Qed.

(** X14: [_analyze_files_via_api] returns at most 50 files, each with a
    path of the listing that ends in one of the target extensions, a
    content that is the first (at most) 10000 characters of the fetched,
    non-empty text, and the full length of that text as its size. *)
Theorem analyze_files_via_api_bounds (fetch : string -> option string)
    (file_paths : list string) :
  let r := _analyze_files_via_api fetch file_paths in
  (length r <= 50)%nat /\
  forall f, In f r ->
    In (ff_path f) file_paths /\ should_scan target_extensions (ff_path f) = true /\
    exists content, fetch (ff_path f) = Some content /\ content <> "" /\
      String.prefix (ff_content f) content = true /\
      String.length (ff_content f) = Nat.min 10000 (String.length content) /\
      ff_size f = String.length content.
Proof.
  intros r. unfold r, _analyze_files_via_api.
  destruct (fetch_files_spec fetch 10000
              (firstn 50 (List.filter (should_scan target_extensions) file_paths)))
    as [Hl H].
  split; [rewrite length_firstn in Hl; lia|].
  intros f Hf. destruct (H f Hf) as [Hin [content [Hc [Hne [Hct Hs]]]]].
  apply in_firstn_in, filter_In in Hin as [Hin Hext].
  split; [exact Hin|]. split; [exact Hext|].
  exists content. rewrite Hct. split; [exact Hc|]. split; [exact Hne|].
  split; [apply substring_0_prefix|]. split; [apply substring_0_length|exact Hs].
Qed.

(** X15: [_analyze_github_repo_fast] returns at most 20 files, each a
    blob of the tree whose path ends in a target extension and either
    contains a key directory or has at most one slash, with the first
    (at most) 5000 characters of its non-empty text. *)
Theorem analyze_github_repo_fast_bounds (tree : option (list tree_item))
    (fetch : string -> option string) :
  let r := _analyze_github_repo_fast tree fetch in
  (length r <= 20)%nat /\
  forall f, In f r ->
    (exists items item, tree = Some items /\ In item items /\ ti_path item = ff_path f /\
       ti_type item = "blob") /\
    should_scan target_extensions (ff_path f) = true /\
    (existsb (fun key_dir => contains key_dir (ff_path f)) key_dirs = true \/
     (count_char "/"%char (ff_path f) <= 1)%nat) /\
    exists content, fetch (ff_path f) = Some content /\ content <> "" /\
      String.prefix (ff_content f) content = true /\
      String.length (ff_content f) = Nat.min 5000 (String.length content).
Proof.
  intros r. unfold r, _analyze_github_repo_fast.
  destruct tree as [items|]; [|split; [simpl; lia|intros f []]].
  destruct (fetch_files_spec fetch 5000 (firstn 20 (_filter_relevant_files items)))
    as [Hl H].
  split; [rewrite length_firstn in Hl; lia|].
  intros f Hf. destruct (H f Hf) as [Hin [content [Hc [Hne [Hct _]]]]].
  apply in_firstn_in in Hin. unfold _filter_relevant_files in Hin.
  apply in_map_iff in Hin as [item [Hp Hin]]. apply filter_In in Hin as [Hin Hok].
  apply andb_true_iff in Hok as [Hb Hok]. apply andb_true_iff in Hok as [Hext Hdir].
  rewrite Hp in Hext, Hdir.
  split; [exists items, item; repeat split; auto; apply String.eqb_eq, Hb|].
  split; [exact Hext|]. split.
  - apply orb_true_iff in Hdir as [Hd|Hd]; [left; exact Hd|right].
    apply Nat.leb_le in Hd. lia.
  - exists content. rewrite Hct. split; [exact Hc|]. split; [exact Hne|].
    split; [apply substring_0_prefix|apply substring_0_length].
Qed.

(** X16: [_get_active_repositories] raises unless the listing's status is
    200; otherwise it returns at most 10 repositories, each taken from a
    listed repository that is not archived and was updated in the last
    180 days. *)
Theorem get_active_repositories_bounds (status : Z) (repositories : list repo_json)
    (now : Z) :
  (_get_active_repositories status repositories now = Raised <-> status <> 200%Z) /\
  forall active, _get_active_repositories status repositories now = Ok active ->
    (length active <= 10)%nat /\
    forall ri, In ri active -> exists repo, In repo repositories /\
      ri_name ri = rj_name repo /\ ri_default_branch ri = rj_default_branch repo /\
      (now - 180 * 86400 < rj_updated_at repo)%Z /\ rj_archived repo <> Some true.
Proof.
  unfold _get_active_repositories. split.
  - destruct (Z.eqb_spec status 200); simpl; split; congruence.
  - intros active. destruct (Z.eqb_spec status 200); simpl; [|discriminate].
    intros H. injection H as <-. split; [rewrite length_firstn; lia|].
    intros ri Hri. apply in_firstn_in, in_map_iff in Hri as [repo [<- Hin]].
    apply filter_In in Hin as [Hin Hok]. apply andb_true_iff in Hok as [Ht Ha].
    exists repo. split; [exact Hin|]. split; [reflexivity|]. split; [reflexivity|].
    split; [apply Z.ltb_lt, Ht|].
    destruct (rj_archived repo) as [[]|]; simpl in Ha; congruence.
Qed.

(* ------------------------------------------------------------------ *)
(** ** GitLab project ids and HTML labels *)

Lemma hex_digit_safe (k : nat) : (k < 16)%nat -> always_safe (hex_digit k) = true.
Proof.
  intros Hk. do 16 (destruct k as [|k]; [reflexivity|]). lia.
Qed.

Lemma pct_byte_chars (b : nat) (c : ascii) :
  (b < 256)%nat -> In c (list_ascii_of_string (pct_byte b)) ->
  always_safe c = true \/ c = "%"%char.
Proof.
  intros Hb H. unfold pct_byte in H. cbn [list_ascii_of_string In] in H.
  destruct H as [<-|[<-|[<-|[]]]].
  - right. reflexivity.
  - left. apply hex_digit_safe. apply Nat.Div0.div_lt_upper_bound. lia.
  - left. apply hex_digit_safe. apply Nat.mod_upper_bound. lia.
Qed.

Lemma list_ascii_of_string_app (a b : string) :
  list_ascii_of_string (a ++ b) = (list_ascii_of_string a ++ list_ascii_of_string b)%list.
Proof.
  induction a as [|x a IH]; [reflexivity|].
  change (x :: list_ascii_of_string (a ++ b) =
          x :: (list_ascii_of_string a ++ list_ascii_of_string b))%list.
  rewrite IH. reflexivity.
Qed.

Lemma quote_char_chars (x c : ascii) :
  In c (list_ascii_of_string (quote_char x)) -> always_safe c = true \/ c = "%"%char.
Proof.
  pose proof (nat_ascii_bounded x) as Hx.
  unfold quote_char. destruct (always_safe x) eqn:Es.
  - intros [<-|[]]. left. exact Es.
  - destruct (nat_of_ascii x <? 128)%nat eqn:E.
    + apply pct_byte_chars. lia.
    + rewrite list_ascii_of_string_app. intros H. apply in_app_or in H as [H|H];
        (apply pct_byte_chars in H; [exact H|]).
      * apply Nat.ltb_ge in E.
        assert (nat_of_ascii x / 64 < 4)%nat by (apply Nat.Div0.div_lt_upper_bound; lia).
        lia.
      * pose proof (Nat.mod_upper_bound (nat_of_ascii x) 64). lia.
Qed.

Lemma quote_chars (s : string) (c : ascii) :
  In c (list_ascii_of_string (quote s)) -> always_safe c = true \/ c = "%"%char.
Proof.
  induction s as [|x s IH]; simpl; [intros []|].
  intros H. rewrite list_ascii_of_string_app in H.
  apply in_app_or in H as [H|H]; [apply (quote_char_chars x), H|apply IH, H].
Qed.

Lemma quote_safe_id (s : string) :
  (forall c, In c (list_ascii_of_string s) -> always_safe c = true) -> quote s = s.
Proof.
  induction s as [|x s IH]; intros Hs; [reflexivity|].
  simpl. unfold quote_char. rewrite (Hs x (or_introl eq_refl)).
  change (String x (quote s) = String x s). f_equal.
  apply IH. intros c Hc. apply Hs. right. exact Hc.
Qed.

(** X17: [_encode_project_path] produces only unreserved characters and
    [%], so the encoded GitLab project path holds no [/]; a path made
    of unreserved characters only is left unchanged. *)
Theorem encode_project_path_chars (project_path : string) :
  (forall c, In c (list_ascii_of_string (_encode_project_path project_path)) ->
     always_safe c = true \/ c = "%"%char) /\
  ~ In "/"%char (list_ascii_of_string (_encode_project_path project_path)) /\
  ((forall c, In c (list_ascii_of_string project_path) -> always_safe c = true) ->
   _encode_project_path project_path = project_path).
Proof.
  unfold _encode_project_path. split; [apply quote_chars|]. split.
  - intros H. apply quote_chars in H as [H|H]; discriminate H.
  - apply quote_safe_id.
Qed.

Lemma replace_char_app (c : ascii) (rep a b : string) :
  replace_char c rep (a ++ b) = replace_char c rep a ++ replace_char c rep b.
Proof.
  induction a as [|x a IH]; [reflexivity|].
  change ((if Ascii.eqb x c then rep else String x EmptyString) ++ replace_char c rep (a ++ b)
          = ((if Ascii.eqb x c then rep else String x EmptyString) ++ replace_char c rep a)
            ++ replace_char c rep b).
  rewrite IH, string_append_assoc. reflexivity.
Qed.

Lemma replace_char_single_ne (x c : ascii) (rep : string) :
  Ascii.eqb x c = false -> replace_char c rep (String x EmptyString) = String x EmptyString.
Proof. intros H. unfold replace_char. rewrite H. reflexivity. Qed.

Lemma html_escape_char (x : ascii) :
  replace_char ">"%char "&gt;" (replace_char "<"%char "&lt;"
    (replace_char "&"%char "&amp;" (String x EmptyString))) = escape_char x.
Proof.
  unfold escape_char.
  destruct (Ascii.eqb_spec x "&"%char) as [->|H1]; [reflexivity|].
  destruct (Ascii.eqb_spec x "<"%char) as [->|H2]; [reflexivity|].
  destruct (Ascii.eqb_spec x ">"%char) as [->|H3]; [reflexivity|].
  apply Ascii.eqb_neq in H1, H2, H3.
  rewrite (replace_char_single_ne _ _ _ H1), (replace_char_single_ne _ _ _ H2),
    (replace_char_single_ne _ _ _ H3). reflexivity.
Qed.

Lemma html_escape_eq (s : string) : html_escape (Some s) = escape_all s.
Proof.
  unfold html_escape. cbv beta iota zeta. induction s as [|x s IH]; [reflexivity|].
  change (String x s) with (String x EmptyString ++ s).
  rewrite !replace_char_app, html_escape_char, IH. reflexivity.
Qed.

Lemma escape_char_prefix (x y : ascii) (r1 r2 : string) :
  escape_char x ++ r1 = escape_char y ++ r2 -> x = y /\ r1 = r2.
Proof.
  unfold escape_char.
  destruct (Ascii.eqb_spec x "&"%char) as [->|X1];
  [|destruct (Ascii.eqb_spec x "<"%char) as [->|X2];
  [|destruct (Ascii.eqb_spec x ">"%char) as [->|X3]]];
  (destruct (Ascii.eqb_spec y "&"%char) as [->|Y1];
  [|destruct (Ascii.eqb_spec y "<"%char) as [->|Y2];
  [|destruct (Ascii.eqb_spec y ">"%char) as [->|Y3]]]);
  cbn [String.append]; intros H; injection H; intros; subst;
  try (split; [reflexivity|assumption]); try discriminate; try congruence.
Qed.

Lemma escape_all_inj (a b : string) : escape_all a = escape_all b -> a = b.
Proof.
  revert b. induction a as [|x a IH]; intros [|y b]; cbn [escape_all]; intros H.
  - reflexivity.
  - exfalso. unfold escape_char in H.
    destruct (Ascii.eqb y "&"%char), (Ascii.eqb y "<"%char), (Ascii.eqb y ">"%char);
      discriminate H.
  - exfalso. unfold escape_char in H.
    destruct (Ascii.eqb x "&"%char), (Ascii.eqb x "<"%char), (Ascii.eqb x ">"%char);
      discriminate H.
  - apply escape_char_prefix in H as [-> H]. f_equal. apply IH, H.
Qed.

Lemma escape_char_no_angle (x c : ascii) :
  In c (list_ascii_of_string (escape_char x)) -> c <> "<"%char /\ c <> ">"%char.
Proof.
  unfold escape_char.
  destruct (Ascii.eqb_spec x "&"%char) as [->|X1];
  [|destruct (Ascii.eqb_spec x "<"%char) as [->|X2];
  [|destruct (Ascii.eqb_spec x ">"%char) as [->|X3]]];
  cbn [list_ascii_of_string In];
  intros H; repeat destruct H as [<-|H]; try destruct H; split; try discriminate; auto.
Qed.

(** X18: the text [html_escape] puts into a node label holds no [<] and
    no [>], and two different names are never escaped to the same text. *)
Theorem html_escape_safe_injective (s s' : string) :
  (forall c, In c (list_ascii_of_string (html_escape (Some s))) ->
     c <> "<"%char /\ c <> ">"%char) /\
  (html_escape (Some s) = html_escape (Some s') -> s = s').
Proof.
  rewrite !html_escape_eq. split; [|apply escape_all_inj].
  induction s as [|x s IH]; cbn [escape_all]; [intros _ []|].
  intros c H. rewrite list_ascii_of_string_app in H.
  apply in_app_or in H as [H|H]; [apply (escape_char_no_angle x), H|apply IH, H].
Qed.

(* ------------------------------------------------------------------ *)
(** ** Column comparison *)

Lemma fold_insert_key_In (l : list string) (x : string) :
  In x (fold_right insert_key [] l) <-> In x l.
Proof.
  induction l as [|k l IH]; simpl; [tauto|]. rewrite insert_key_In, IH. tauto.
Qed.

Lemma fold_insert_key_sorted (l : list string) :
  StronglySorted str_lt (fold_right insert_key [] l).
Proof.
  induction l as [|k l IH]; simpl; [constructor|]. apply insert_key_sorted, IH.
Qed.

Lemma sorted_set_In (s : gset string) (x : string) : In x (sorted_set s) <-> x ∈ s.
Proof.
  unfold sorted_set. rewrite fold_insert_key_In, <- list_elem_of_In.
  apply elem_of_elements.
Qed.

Lemma sorted_set_nonempty (s : gset string) : s <> ∅ -> sorted_set s <> [].
Proof.
  intros Hs He. apply Hs. apply set_eq. intros x. split; [|set_solver].
  intros Hx. apply sorted_set_In in Hx. rewrite He in Hx. destruct Hx.
Qed.

Lemma column_comparison_tables (d1 d2 : snapshot) :
  map cd_table (_display_column_comparison d1 d2) =
  List.filter (fun t => negb (bool_decide (col_set d1 t = col_set d2 t)))
    (sorted_set (common (compare_tables d1 d2))).
Proof.
  unfold _display_column_comparison.
  induction (sorted_set (common (compare_tables d1 d2))) as [|t ts IH]; [reflexivity|].
  cbn [flat_map List.filter]. rewrite map_app, IH.
  destruct (decide (col_set d1 t = col_set d2 t)) as [E|E].
  - rewrite bool_decide_true by exact E. reflexivity.
  - rewrite bool_decide_false by exact E. reflexivity.
Qed.

(** X19: the differences rows of [_display_column_comparison] name, in
    strictly ascending order, exactly the tables present in both
    environments whose column sets differ; each row lists at least one
    column present on one side only, and counts the common columns. *)
Theorem display_column_comparison_rows (d1 d2 : snapshot) :
  let rows := _display_column_comparison d1 d2 in
  StronglySorted str_lt (map cd_table rows) /\
  (forall t, In t (map cd_table rows) <->
     In t (sn_tables d1) /\ In t (sn_tables d2) /\ col_set d1 t <> col_set d2 t) /\
  (forall cd, In cd rows ->
     (cd_only_in_1 cd <> [] \/ cd_only_in_2 cd <> []) /\
     (forall c, In c (cd_only_in_1 cd) <->
        c ∈ col_set d1 (cd_table cd) /\ c ∉ col_set d2 (cd_table cd)) /\
     (forall c, In c (cd_only_in_2 cd) <->
        c ∈ col_set d2 (cd_table cd) /\ c ∉ col_set d1 (cd_table cd)) /\
     cd_common cd = size (col_set d1 (cd_table cd) ∩ col_set d2 (cd_table cd))).
Proof.
  intros rows. unfold rows. rewrite column_comparison_tables. split; [|split].
  - apply strongly_sorted_filter. apply fold_insert_key_sorted.
  - intros t. rewrite filter_In, sorted_set_In. unfold compare_tables. simpl.
    rewrite elem_of_intersection, !elem_of_list_to_set, !list_elem_of_In.
    rewrite negb_true_iff, bool_decide_eq_false. tauto.
  - intros cd Hcd. unfold _display_column_comparison in Hcd.
    apply in_flat_map in Hcd as [t [_ Hcd]].
    destruct (decide (col_set d1 t = col_set d2 t)) as [_|Hne]; [destruct Hcd|].
    destruct Hcd as [<-|[]]. simpl. split; [|split; [|split]].
    + destruct (decide (col_set d1 t ∖ col_set d2 t = ∅)) as [E1|E1];
        [|left; apply sorted_set_nonempty, E1].
      destruct (decide (col_set d2 t ∖ col_set d1 t = ∅)) as [E2|E2];
        [|right; apply sorted_set_nonempty, E2].
      exfalso. apply Hne. apply set_eq. intros c. split; intros Hc.
      * destruct (decide (c ∈ col_set d2 t)); [assumption|].
        assert (c ∈ col_set d1 t ∖ col_set d2 t) by set_solver.
        rewrite E1 in H. set_solver.
      * destruct (decide (c ∈ col_set d1 t)); [assumption|].
        assert (c ∈ col_set d2 t ∖ col_set d1 t) by set_solver.
        rewrite E2 in H. set_solver.
    + intros c. rewrite sorted_set_In. apply elem_of_difference.
    + intros c. rewrite sorted_set_In. apply elem_of_difference.
    + reflexivity.
Qed.

(* ------------------------------------------------------------------ *)
(** ** Connection handling *)

(** X20: [_retry_connection] never returns [False] or falls off its
    loop: it returns [True] right after the first successful attempt
    among the first three, or re-raises after three failed attempts; it
    never makes more than three attempts. *)
Theorem retry_connection_outcome (attempt_ok : nat -> bool) :
  (exists k, (k < 3)%nat /\ attempt_ok k = true /\
     (forall j, (j < k)%nat -> attempt_ok j = false) /\
     _retry_connection attempt_ok = (Ok (Some true), seq 0 (S k))) \/
  ((forall j, (j < 3)%nat -> attempt_ok j = false) /\
   _retry_connection attempt_ok = (Raised, [0; 1; 2]%nat)).
Proof.
  unfold _retry_connection. simpl.
  destruct (attempt_ok 0) eqn:E0.
  - left. exists 0%nat. repeat split; auto; intros j Hj; lia.
  - destruct (attempt_ok 1) eqn:E1.
    + left. exists 1%nat. repeat split; auto.
      intros j Hj. assert (j = 0)%nat by lia. subst. exact E0.
    + destruct (attempt_ok 2) eqn:E2.
      * left. exists 2%nat. repeat split; auto.
        intros j Hj. destruct j as [|[|j]]; auto; lia.
      * right. split; [|reflexivity].
        intros j Hj. destruct j as [|[|[|j]]]; auto; lia.
Qed.

(** X21: [reconnect_if_needed] returns [True] only when the session is
    connected, has connection parameters and the connection test
    passes; when the test fails, reconnection always raises (the call of
    [execute_reconnect_scripts] misses an argument), so it returns
    [False] and clears [connected]; the engine is never replaced. *)
Theorem reconnect_if_needed_outcome (ss : conn_session) (test_ok : bool) :
  let '(ok, ss') := reconnect_if_needed ss test_ok in
  (ok = true <-> connected ss = true /\ has_connection_params ss = true /\ test_ok = true) /\
  engine_id ss' = engine_id ss /\
  has_connection_params ss' = has_connection_params ss /\
  (connected ss' = true <-> connected ss = true /\
     (has_connection_params ss = false \/ test_ok = true)).
Proof.
  destruct ss as [c p e]. unfold reconnect_if_needed. simpl.
  destruct c, p, test_ok; simpl; intuition discriminate.
Qed.

(* ------------------------------------------------------------------ *)
(** ** Session defaults *)

Lemma initialize_session_state_lookup {V} (session_vars : list (string * V))
    (session : gmap string V) (k : string) :
  initialize_session_state session_vars session !! k =
  match session !! k with
  | Some v => Some v
  | None => snd <$> List.find (fun kv => String.eqb kv.1 k) session_vars
  end.
Proof.
  unfold initialize_session_state.
  revert session. induction session_vars as [|[k0 v0] rest IH]; intros m; simpl.
  - destruct (m !! k); reflexivity.
  - rewrite IH. destruct (String.eqb_spec k0 k) as [->|Hne].
    + destruct (m !! k) eqn:Ek; simpl.
      * rewrite Ek. reflexivity.
      * rewrite lookup_insert_eq. reflexivity.
    + destruct (m !! k0) eqn:Ek0; [reflexivity|].
      rewrite lookup_insert_ne by exact Hne. reflexivity.
Qed.

(** X22: [initialize_session_state] never overwrites a value already in
    the session: every variable present keeps its value, every listed
    variable that was missing gets its first listed default, other
    names stay absent, and running it again changes nothing. *)
Theorem initialize_session_state_spec {V} (session_vars : list (string * V))
    (session : gmap string V) :
  let s' := initialize_session_state session_vars session in
  (forall k, s' !! k =
     match session !! k with
     | Some v => Some v
     | None => snd <$> List.find (fun kv => String.eqb kv.1 k) session_vars
     end) /\
  initialize_session_state session_vars s' = s'.
Proof.
  cbv zeta. split; [apply initialize_session_state_lookup|].
  apply map_eq. intros k. rewrite initialize_session_state_lookup.
  destruct (initialize_session_state session_vars session !! k) eqn:E; [reflexivity|].
  rewrite initialize_session_state_lookup in E.
  destruct (session !! k); [discriminate|]. exact E.
Qed.

(* ------------------------------------------------------------------ *)
(** ** Load success path *)

Lemma fold_insert_columns_lookup (f : string -> list string) (ts : list string)
    (m : gmap string (list string)) (k : string) :
  fold_left (fun m t => <[t := f t]> m) ts m !! k =
  if in_dec string_dec k ts then Some (f k) else m !! k.
Proof.
  revert m. induction ts as [|t ts IH]; intros m; simpl; [reflexivity|].
  rewrite IH. destruct (in_dec string_dec k ts) as [Hin|Hin];
    destruct (string_dec t k) as [->|Hne]; simpl.
  - reflexivity.
  - reflexivity.
  - rewrite lookup_insert_eq. reflexivity.
  - rewrite lookup_insert_ne by exact Hne.
    destruct (in_dec string_dec k ts); [contradiction|reflexivity].
Qed.

Lemma fold_insert_info_lookup (rs : list tables_q_row) (m : gmap string table_meta)
    (k : string) :
  fold_left (fun m r => <[tq_name r := meta_of_row r]> m) rs m !! k =
  match List.find (fun r => String.eqb (tq_name r) k) (rev rs) with
  | Some r => Some (meta_of_row r)
  | None => m !! k
  end.
Proof.
  induction rs as [|r rs IH] using rev_ind; [reflexivity|].
  rewrite fold_left_app, rev_app_distr. simpl.
  destruct (String.eqb_spec (tq_name r) k) as [<-|Hne].
  - apply lookup_insert_eq.
  - rewrite lookup_insert_ne by exact Hne. exact IH.
Qed.

(** X23: when the connection and both queries succeed and the tables
    query returns at least one row, [load_schema_metadata] lists the
    table names in row order, gives each listed table its columns in
    row order (no column entry at all when the columns query returned
    no row), and keeps for each table the metadata of its last row. *)
Theorem load_schema_metadata_success (tables_rows : list tables_q_row)
    (columns_rows : list (string * string)) :
  tables_rows <> [] ->
  let s := load_schema_metadata (answering_env tables_rows columns_rows) in
  sn_tables s = map tq_name tables_rows /\
  (forall t, sn_columns s !! t =
     match columns_rows with
     | [] => None
     | _ :: _ =>
         if in_dec string_dec t (map tq_name tables_rows)
         then Some (map snd (List.filter (fun r => String.eqb (fst r) t) columns_rows))
         else None
     end) /\
  (forall t, sn_table_info s !! t =
     meta_of_row <$> List.find (fun r => String.eqb (tq_name r) t) (rev tables_rows)).
Proof.
  intros Hne. cbv zeta.
  destruct tables_rows as [|r0 rs]; [contradiction|].
  unfold load_schema_metadata, load_body, answering_env.
  cbn [obind raise_unless run_query connect_ok q_tables q_columns
       sn_tables sn_columns sn_table_info].
  split; [reflexivity|split].
  - intros t. destruct columns_rows as [|c cs]; [apply lookup_empty|].
    rewrite (fold_insert_columns_lookup
               (fun t => map snd (List.filter (fun r => String.eqb (fst r) t) (c :: cs)))
               (tq_name r0 :: map tq_name rs)).
    change (map tq_name (r0 :: rs)) with (tq_name r0 :: map tq_name rs).
    destruct (in_dec string_dec t (tq_name r0 :: map tq_name rs)); reflexivity.
  - intros t. rewrite (fold_insert_info_lookup (r0 :: rs)).
    destruct (List.find _ _); reflexivity.
Qed.

(* ------------------------------------------------------------------ *)
(** ** Instances of the properties on sample inputs *)

Lemma erd_generation_node_order_witness :
  exists g, erd_generation shop_frames shop_info false false 80 = Some g /\
  map n_id (all_nodes g) =
    map node_id (fst (_filter_unused_tables (tables_frame (d_cols shop_frames)) shop_info)) /\
  StronglySorted pair_lt
    (fst (_filter_unused_tables (tables_frame (d_cols shop_frames)) shop_info)).
Proof.
  eexists. split; [reflexivity|].
  apply (erd_generation_node_order shop_frames shop_info false false 80).
  reflexivity.
Defined.

Lemma erd_generation_edge_tails_witness :
  exists g, erd_generation shop_frames shop_info true true 80 = Some g /\
  edges g = map fk_edge
    (List.filter (fun r => pair_in
        (fst (_filter_unused_tables (tables_frame (d_cols shop_frames)) shop_info))
        (f_child_schema r) (f_child_table r)) (d_fks shop_frames)) /\
  (forall e, In e (edges g) -> exists n, In n (all_nodes g) /\ n_id n = e_tail e).
Proof.
  eexists. split; [reflexivity|].
  apply (erd_generation_edge_tails shop_frames shop_info true true 80).
  reflexivity.
Defined.

Lemma failed_load_excludes_schema_witness :
  (∅ : schema_cache) !! cache_key "dev" "shop" = None /\
  load_raises env_columns_query_fails = true /\
  In "shop" ["shop"] /\ In ("shop", "orders") shop_tables /\
  _is_enum_table "orders" = false /\
  let '(kept, excl, cache') :=
    filter_unused_tables_collect "dev" (fun _ => env_columns_query_fails)
      shop_tables ["shop"] ∅ in
  ~ In ("shop", "orders") kept /\
  In {| ex_table := "shop" ++ "." ++ "orders";
        ex_reason := "No UPDATE_TIME metadata (non-enum table)" |} excl /\
  cache' !! cache_key "dev" "shop" = Some empty_snapshot.
Proof.
  split; [reflexivity|]. split; [reflexivity|].
  split; [left; reflexivity|]. split; [right; left; reflexivity|].
  split; [reflexivity|].
  apply (failed_load_excludes_schema "dev" (fun _ => env_columns_query_fails)
           shop_tables ["shop"] ∅ "shop" "orders").
  - reflexivity.
  - reflexivity.
  - left. reflexivity.
  - right. left. reflexivity.
  - reflexivity.
Defined.

Section SampleMatches.
#[local] Existing Instance re_fragment_only.

Lemma pattern_matches_lines_witness :
  pattern_matches (table_patterns "orders") "SELECT id FROM orders WHERE id = 5" =
    Some orders_line_matches /\
  In orders_line_match orders_line_matches /\
  (1 <= m_line orders_line_match <=
     length (split_nl "SELECT id FROM orders WHERE id = 5"))%nat /\
  m_content orders_line_match =
    strip (nth (m_line orders_line_match - 1)
                (split_nl "SELECT id FROM orders WHERE id = 5") "") /\
  In (m_pattern orders_line_match) (map pat_text (table_patterns "orders")).
Proof.
  assert (E : pattern_matches (table_patterns "orders") "SELECT id FROM orders WHERE id = 5" =
    Some orders_line_matches) by (vm_compute; reflexivity).
  assert (Hin : In orders_line_match orders_line_matches) by (left; reflexivity).
  split; [exact E|]. split; [exact Hin|].
  exact (pattern_matches_lines (table_patterns "orders")
           "SELECT id FROM orders WHERE id = 5" orders_line_matches orders_line_match E Hin).
Defined.

End SampleMatches.

Lemma load_schema_metadata_success_witness :
  shop_tables_rows <> [] /\
  sn_tables (load_schema_metadata (answering_env shop_tables_rows shop_columns_rows)) =
    map tq_name shop_tables_rows /\
  (forall t, sn_columns (load_schema_metadata
                (answering_env shop_tables_rows shop_columns_rows)) !! t =
     match shop_columns_rows with
     | [] => None
     | _ :: _ =>
         if in_dec string_dec t (map tq_name shop_tables_rows)
         then Some (map snd (List.filter (fun r => String.eqb (fst r) t) shop_columns_rows))
         else None
     end) /\
  (forall t, sn_table_info (load_schema_metadata
                (answering_env shop_tables_rows shop_columns_rows)) !! t =
     meta_of_row <$> List.find (fun r => String.eqb (tq_name r) t) (rev shop_tables_rows)).
Proof.
  split; [discriminate|].
  apply (load_schema_metadata_success shop_tables_rows shop_columns_rows).
  discriminate.
Defined.
